(** * Host-side driver of the Puppetmaster transaction scheduler

    A shallow embedding of [main] in [src/main.cpp]: the construction of the
    test workload (the built-in generator, or the loader of comma-separated
    files), and the loop that enqueues every transaction. *)

From Stdlib Require Import ZArith Lia String Ascii List Bool.
From Stdlib Require HexString DecimalString DecimalN DecimalPos.
From stdpp Require Import base list gmap strings.

Local Open Scope Z_scope.

(** ** Data model *)

(** [Object]: the three fields the source assigns in every compound literal
    [(Object){.valid = .., .write = .., .object = ..}]. *)
Record Object := mkObject { valid : bool; write : bool; object : Z }.

(** [constexpr std::size_t numObjects = 16;] *)
Definition numObjects : nat := 16.

(** [std::array<Object, numObjects>]: a list of [numObjects] slots. *)
Abbreviation Transaction := (list Object).

(** [unsigned] arithmetic: every operation is reduced modulo [2^32]. *)
Definition uint (z : Z) : Z := z mod 2 ^ 32.
Definition umul (a b : Z) : Z := uint (a * b).
Definition uadd (a b : Z) : Z := uint (a + b).
Definition usub (a b : Z) : Z := uint (a - b).

(** [unsigned long] is 64 bits wide: the source prints [std::uint64_t] values
    with the [%lu] conversion. *)
Definition ULONG_MAX : Z := 2 ^ 64 - 1.

(** Stores into an array, in program order: [(k, o)] stands for
    [objs[k] = o].  A store past the end of a [std::array] is undefined in
    C++; here it leaves the array as it is, and [test_stores_bound] and the
    guard [i < numObjects] of the loader show that the code performs none. *)
Definition apply_stores (stores : list (nat * Object)) (objs : Transaction)
  : Transaction :=
  fold_left (fun a s => <[ s.1 := s.2 ]> a) stores objs.

(** What [main] does that the scheduler can observe: the calls of
    [enqueueTransaction], in order, and the value [main] returns, if it
    returns at all ([None]: it has reached the final [while (true)]). *)
Record run := mkRun { calls : list (Z * Transaction); status : option Z }.

(** The body of a function that may [return] early: [inl code] is
    [return code;], [inr a] continues with [a]. *)
Abbreviation result := (sum Z).

#[global] Instance result_ret : MRet result := fun A a => inr a.
#[global] Instance result_bind : MBind result := fun A B f m =>
  match m with
  | inl code => inl code
  | inr a => f a
  end.

(** ** Reading text *)

(** [std::getline(stream, out, delim)] on a stream whose unread part is [s]:
    characters are extracted up to the first [delim], which is consumed and
    not stored, or up to the end of the stream.  It fails ([None]) exactly
    when nothing could be extracted, that is at the end of the stream;
    otherwise it gives the extracted text and the part left unread. *)
Fixpoint getline (delim : ascii) (s : string) : option (string * string) :=
  match s with
  | EmptyString => None
  | String c rest =>
      if Ascii.eqb c delim then Some (EmptyString, rest)
      else match getline delim rest with
           | None => Some (String c EmptyString, EmptyString)
           | Some (t, r) => Some (String c t, r)
           end
  end.

(** The texts extracted by calling [getline] until it fails, as the loops
    [while (std::getline(..))] and [for (..; std::getline(..); ..)] do
    (see [getlines_unfold]). *)
Fixpoint getlines (delim : ascii) (s : string) : list string :=
  match s with
  | EmptyString => []
  | String c rest =>
      if Ascii.eqb c delim then EmptyString :: getlines delim rest
      else match getlines delim rest with
           | [] => [String c EmptyString]
           | t :: ts => String c t :: ts
           end
  end.

Definition comma : ascii := ","%char.
Definition newline : ascii := "010"%char.

(** [std::isspace] in the C locale: space, and the controls 9 to 13. *)
Definition isspace (c : ascii) : bool :=
  let n := N_of_ascii c in
  ((n =? 32) || ((9 <=? n) && (n <=? 13)))%N.

(** The value of a decimal digit, [None] for any other character. *)
Definition digit_of (c : ascii) : option Z :=
  let n := Z.of_N (N_of_ascii c) in
  if (48 <=? n) && (n <=? 57) then Some (n - 48) else None.

Fixpoint skip_space (s : string) : string :=
  match s with
  | EmptyString => EmptyString
  | String c rest => if isspace c then skip_space rest else s
  end.

(** The longest run of decimal digits that [s] starts with. *)
Fixpoint read_digits (s : string) : list Z :=
  match s with
  | EmptyString => []
  | String c rest =>
      match digit_of c with
      | Some d => d :: read_digits rest
      | None => []
      end
  end.

Definition decimal (ds : list Z) : Z :=
  fold_left (fun acc d => acc * 10 + d) ds 0.

(** What a call [std::stoul(value)] does: it returns a value or throws one
    of two exceptions. *)
Inductive stoul_result :=
| Value (v : Z)
| invalid_argument
| out_of_range.

(** An optional sign in front of the digits. *)
Definition split_sign (s : string) : bool * string :=
  match s with
  | String c rest =>
      if Ascii.eqb c "-" then (true, rest)
      else if Ascii.eqb c "+" then (false, rest)
      else (false, s)
  | EmptyString => (false, s)
  end.

(** [std::stoul(value)], that is [strtoul] in base 10: white space is skipped,
    one sign is accepted, the digits that follow are converted and whatever
    comes after them is left alone.  No digit: [invalid_argument].  A value
    above [ULONG_MAX]: [out_of_range].  After a minus sign the value is
    negated as an [unsigned long]. *)
Definition stoul (value : string) : stoul_result :=
  let '(negative, s) := split_sign (skip_space value) in
  match read_digits s with
  | [] => invalid_argument
  | ds =>
      let v := decimal ds in
      if v >? ULONG_MAX then out_of_range
      else Value (if negative : bool then (- v) mod 2 ^ 64 else v)
  end.

Section Driver.

(** The header [HostToPuppetmaster.h] declares [Object] and [ObjectAddress];
    it is generated and not part of the sources.  Two facts it fixes are
    parameters here: the width of [ObjectAddress], and what a slot of a
    declared array [std::array<Object, numObjects> objs;] holds before
    anything is assigned to it. *)
Variable ObjectAddress_bits : Z.
Variable Object_init : Object.

(** Conversion of an unsigned value to [ObjectAddress]. *)
Definition to_ObjectAddress (z : Z) : Z := z mod 2 ^ ObjectAddress_bits.

(** [std::array<Object, numObjects> objs;] *)
Definition objs_declared : Transaction := replicate numObjects Object_init.

(** ** The built-in tests (no file given) *)

(** [objSetSize * i * 2 + j * 2] *)
Definition read_object (objSetSize i j : Z) : Z :=
  uadd (umul (umul objSetSize i) 2) (umul j 2).

(** The conditional expression of lines 75-78. *)
Definition write_object (objSetSize i j : Z) : Z :=
  if i mod 4 =? 0 then
    uadd (uadd (umul (umul objSetSize i) 2) (umul j 2)) 1
  else if i mod 4 =? 1 then
    uadd (uadd (umul (umul objSetSize (usub i (i mod 2))) 2) (umul j 2)) 1
  else if i mod 4 =? 2 then
    uadd (uadd (umul (umul objSetSize (i mod 2)) 2) (umul j 2)) 1
  else
    uadd (uadd (umul objSetSize 2) (umul j 2)) 1.

(** The two assignments of one iteration of the inner loop. *)
Definition pair_stores (objSetSize i j : nat) : list (nat * Object) :=
  [ ((2 * j)%nat,
     mkObject true false
       (to_ObjectAddress (read_object (Z.of_nat objSetSize) (Z.of_nat i) (Z.of_nat j))));
    ((2 * j + 1)%nat,
     mkObject true true
       (to_ObjectAddress (write_object (Z.of_nat objSetSize) (Z.of_nat i) (Z.of_nat j)))) ].

(** The inner loop, [for (unsigned j = 0; j < objSetSize; j++)]. *)
Definition test_stores (objSetSize i : nat) : list (nat * Object) :=
  flat_map (pair_stores objSetSize i) (seq 0 objSetSize).

(** One iteration of the outer loop: the array that is pushed back. *)
Definition test_objs (objSetSize i : nat) : Transaction :=
  apply_stores (test_stores objSetSize i) objs_declared.

(** The outer loop,
    [for (unsigned i = 0; i < numTests * maxScheduledObjects; i++)]. *)
Definition generate (numTests maxScheduledObjects objSetSize : nat)
  : list Transaction :=
  test_objs objSetSize
    <$> seq 0 (Z.to_nat (umul (Z.of_nat numTests) (Z.of_nat maxScheduledObjects))).

(** [numTests = 4], [maxScheduledObjects = 8],
    [objSetSize = numObjects / 2]. *)
Definition default_tests : list Transaction :=
  generate 4 8 (numObjects / 2).

(** ** Tests loaded from files *)

(** The loop over the labels of the header: the positions of the labels
    that start with ["Read object"] and with ["Written object"]. *)
Fixpoint header_loop (i : nat) (labels : list string)
    (readIndices writeIndices : gset nat) : gset nat * gset nat :=
  match labels with
  | [] => (readIndices, writeIndices)
  | label :: rest =>
      if String.prefix "Read object" label then
        header_loop (S i) rest ({[ i ]} ∪ readIndices) writeIndices
      else if String.prefix "Written object" label then
        header_loop (S i) rest readIndices ({[ i ]} ∪ writeIndices)
      else
        header_loop (S i) rest readIndices writeIndices
  end.

Definition set_contains (set : gset nat) (key : nat) : bool :=
  bool_decide (key ∈ set).

(** The body of the loop over the values of a line (lines 127-144). *)
Definition value_step (readIndices writeIndices : gset nat)
    (objs : Transaction) (i : nat) (value : string) : result Transaction :=
  if negb (String.length value =? 0)%nat
     && (set_contains readIndices i || set_contains writeIndices i)
  then
    match stoul value with
    | invalid_argument => inl 3
    | out_of_range => inl 4
    | Value v =>
        inr (<[ i := mkObject true (set_contains writeIndices i)
                              (to_ObjectAddress v) ]> objs)
    end
  else inr objs.

(** [for (std::size_t i = 0;
         i < numObjects && std::getline(lineBuffer, value, ','); i++)],
    on the values still to be extracted from the line. *)
Fixpoint values_loop (readIndices writeIndices : gset nat) (i : nat)
    (values : list string) (objs : Transaction) : result Transaction :=
  match values with
  | [] => inr objs
  | value :: rest =>
      if (i <? numObjects)%nat then
        objs' ← value_step readIndices writeIndices objs i value;
        values_loop readIndices writeIndices (S i) rest objs'
      else inr objs
  end.

(** One content line: the array declared at line 120, after the loop. *)
Definition parse_line (readIndices writeIndices : gset nat) (line : string)
  : result Transaction :=
  values_loop readIndices writeIndices 0 (getlines comma line) objs_declared.

(** [while (std::getline(source, line)) { .. tests.push_back(objs); }] *)
Fixpoint lines_loop (readIndices writeIndices : gset nat)
    (lines : list string) (tests : list Transaction)
  : result (list Transaction) :=
  match lines with
  | [] => inr tests
  | line :: rest =>
      objs ← parse_line readIndices writeIndices line;
      lines_loop readIndices writeIndices rest (tests ++ [objs])
  end.

(** The file system: the text of every file that can be opened.  It does
    not change while [main] runs. *)
Variable files : string -> option string.

(** The body of the loop over the arguments (lines 86-148). *)
Definition load_file (path : string) (tests : list Transaction)
  : result (list Transaction) :=
  match files path with
  | None => inl 1
  | Some source =>
      match getline newline source with
      | None => inl 2
      | Some (header, content) =>
          let '(readIndices, writeIndices) :=
            header_loop 0 (getlines comma header) ∅ ∅ in
          lines_loop readIndices writeIndices (getlines newline content) tests
      end
  end.

(** [for (int i = 1; i < argc; i++)], on the arguments still to be read. *)
Fixpoint files_loop (paths : list string) (tests : list Transaction)
  : result (list Transaction) :=
  match paths with
  | [] => inr tests
  | path :: rest =>
      tests' ← load_file path tests;
      files_loop rest tests'
  end.

(** The first part of [main]: the vector [tests], unless [main] returns. *)
Definition build_tests (argv : list string) : result (list Transaction) :=
  if (length argv <=? 1)%nat then inr default_tests
  else files_loop (tail argv) [].

(** The loop that runs the tests: one call [enqueueTransaction(i, objs..)]
    for every index [i] of [tests]. *)
Definition run_tests (tests : list Transaction) : list (Z * Transaction) :=
  imap (fun i objs => (Z.of_nat i, objs)) tests.

Definition main (argv : list string) : run :=
  match build_tests argv with
  | inl code => mkRun [] (Some code)
  | inr tests => mkRun (run_tests tests) None
  end.

End Driver.

(** Modelled from the spec: the declaration of [Object], in the generated
    header, is missing; by section 4.1 of the specification a slot that was
    never populated defaults to [valid = false]. *)
Definition Object_unset : Object := mkObject false false 0.

(** What the storage of [objs] can hold when the array is declared without
    an initialiser: here a valid read of object 5, as a line before may have
    left it in slot 0. *)
Definition Object_stale : Object := mkObject true false 5.

(** The columns that a header marks, in the words of the specification: a
    label that begins with the read prefix marks its column as a read-object
    column, one that begins with the write prefix as a write-object column. *)
Definition column (begins : string -> bool) (labels : list string) (k : nat)
  : Prop :=
  exists label, labels !! k = Some label /\ begins label = true.

Definition read_column : list string -> nat -> Prop :=
  column (String.prefix "Read object").

Definition write_column : list string -> nat -> Prop :=
  column (String.prefix "Written object").

(** A value is taken as an address when it is not empty and its column is
    marked; it is accepted when, in that case, [std::stoul] returns. *)
Definition accepted (R W : gset nat) (k : nat) (value : string) : Prop :=
  value <> EmptyString -> k ∈ R \/ k ∈ W -> exists v, stoul value = Value v.

(** The first value of a line that is not accepted, counting columns from
    [i]: it is among the first [numObjects] columns, and [code] tells which
    exception [std::stoul] throws there. *)
Definition rejected_from (R W : gset nat) (i : nat) (values : list string)
    (code : Z) : Prop :=
  exists n value,
    (i + n < numObjects)%nat
    /\ values !! n = Some value
    /\ value <> EmptyString
    /\ ((i + n)%nat ∈ R \/ (i + n)%nat ∈ W)
    /\ ((code = 3 /\ stoul value = invalid_argument)
        \/ (code = 4 /\ stoul value = out_of_range))
    /\ forall m value', (m < n)%nat -> values !! m = Some value' ->
         accepted R W (i + m)%nat value'.

Definition rejected (R W : gset nat) : list string -> Z -> Prop :=
  rejected_from R W 0.

(** A valid unsigned integer, in the words of the specification (unsigned,
    base 10): one decimal digit or more, and nothing else. *)
Fixpoint all_digits (s : string) : bool :=
  match s with
  | EmptyString => true
  | String c rest =>
      match digit_of c with
      | Some _ => all_digits rest
      | None => false
      end
  end.

Definition is_unsigned_integer (s : string) : bool :=
  negb (String.length s =? 0)%nat && all_digits s.

(** The number that a text of decimal digits denotes. *)
Fixpoint unsigned_value (s : string) : Z :=
  match s with
  | EmptyString => 0
  | String c rest =>
      default 0 (digit_of c) * 10 ^ Z.of_nat (String.length rest)
      + unsigned_value rest
  end.

(** Texts of files, line by line. *)
Fixpoint unlines (lines : list string) : string :=
  match lines with
  | [] => EmptyString
  | line :: rest => (line ++ String newline (unlines rest))%string
  end.

(** A file system to run [main] on. *)
Definition example_files (path : string) : option string :=
  if String.eqb path "tests.csv" then
    Some (unlines ["Read object 1,Name,Written object 1"; "5,abc,7"; ",,12"])
  else if String.eqb path "letters.csv" then
    Some (unlines ["Read object 1"; "abc"])
  else if String.eqb path "large.csv" then
    Some (unlines ["Read object 1"; "99999999999999999999"])
  else if String.eqb path "plain.csv" then
    Some (unlines ["Name,Comment"; "5,abc"; "7"])
  else if String.eqb path "empty.csv" then
    Some EmptyString
  else None.

(** A file that ends after its header. *)
Definition header_files (path : string) : option string :=
  if String.eqb path "header.csv" then Some "Read object 1,Written object 1"
  else None.

(** Whether a character occurs in a text. *)
Fixpoint has_char (c : ascii) (s : string) : bool :=
  match s with
  | EmptyString => false
  | String a rest => Ascii.eqb a c || has_char c rest
  end.

(** Texts put one after the other with [delim] between them. *)
Fixpoint join (delim : ascii) (texts : list string) : string :=
  match texts with
  | [] => EmptyString
  | t :: rest =>
      match rest with
      | [] => t
      | _ :: _ => (t ++ String delim (join delim rest))%string
      end
  end.

(** A text of white space only. *)
Fixpoint all_space (s : string) : bool :=
  match s with
  | EmptyString => true
  | String c rest => isspace c && all_space rest
  end.

(** ** Messages of the indication handler *)

(** The conversion [%lu]: the decimal digits of the number. *)
Definition format_lu (n : N) : string :=
  DecimalString.NilZero.string_of_uint (N.to_uint n).

(** The conversion [%lx]: the hexadecimal digits, in lower case. *)
Definition format_lx (n : N) : string :=
  match n with
  | N0 => "0"
  | Npos p => HexString.Raw.of_pos p EmptyString
  end.

(** The flag [0] with a field width: zeros in front, up to the width. *)
Fixpoint zeros (n : nat) (s : string) : string :=
  match n with
  | O => s
  | S n => String "0" (zeros n s)
  end.

Definition zero_pad (width : nat) (s : string) : string :=
  zeros (width - String.length s) s.

(** [printf("Started %02lx at %lu\n", tid, timestamp)]: what
    [transactionStarted] writes. *)
Definition transactionStarted (tid timestamp : N) : string :=
  ("Started " ++ zero_pad 2 (format_lx tid) ++ " at "
   ++ format_lu timestamp ++ String newline EmptyString)%string.

(** [printf("Finished %02lx at %lu\n", tid, timestamp)]: what
    [transactionFinished] writes. *)
Definition transactionFinished (tid timestamp : N) : string :=
  ("Finished " ++ zero_pad 2 (format_lx tid) ++ " at "
   ++ format_lu timestamp ++ String newline EmptyString)%string.

(** Linear arithmetic with remainders by constants. *)
Ltac lia_mod := Z.to_euclidean_division_equations; lia.

(** ** Properties of stores *)

Lemma apply_stores_app (l1 l2 : list (nat * Object)) (a : Transaction) :
  apply_stores (l1 ++ l2) a = apply_stores l2 (apply_stores l1 a).
Proof. apply fold_left_app. Qed.

Lemma apply_stores_length (l : list (nat * Object)) (a : Transaction) :
  length (apply_stores l a) = length a.
Proof.
  revert a. induction l as [|s l IH]; intros a; [reflexivity|].
  cbn. unfold apply_stores in IH. rewrite IH. apply length_insert.
Qed.

(** A slot that no store names keeps what it held. *)
Lemma apply_stores_lookup_other (l : list (nat * Object)) (a : Transaction) (k : nat) :
  (forall s, In s l -> s.1 <> k) ->
  apply_stores l a !! k = a !! k.
Proof.
  revert a. induction l as [|s l IH]; intros a Hl; [reflexivity|].
  cbn. unfold apply_stores in IH. rewrite IH.
  - apply list_lookup_insert_ne. apply Hl. now left.
  - intros s' Hs'. apply Hl. now right.
Qed.

(** The slots named by the stores of the iterations [a], .., [a + n - 1]. *)
Lemma in_pair_stores bits (objSetSize i a n : nat) (s : nat * Object) :
  In s (flat_map (pair_stores bits objSetSize i) (seq a n)) ->
  exists j, (a <= j < a + n)%nat /\ (s.1 = 2 * j \/ s.1 = 2 * j + 1)%nat.
Proof.
  rewrite in_flat_map. intros (j & Hj & Hs). apply in_seq in Hj.
  exists j. split; [lia|].
  destruct Hs as [<-|[<-|[]]]; cbn; auto.
Qed.

Lemma test_stores_split bits (objSetSize i j : nat) :
  (j < objSetSize)%nat ->
  test_stores bits objSetSize i =
    flat_map (pair_stores bits objSetSize i) (seq 0 j)
    ++ pair_stores bits objSetSize i j
    ++ flat_map (pair_stores bits objSetSize i) (seq (S j) (objSetSize - S j)).
Proof.
  intros Hj. unfold test_stores.
  replace objSetSize with (j + S (objSetSize - S j))%nat at 2 by lia.
  rewrite seq_app, flat_map_app. reflexivity.
Qed.

Lemma objs_declared_length init : length (objs_declared init) = numObjects.
Proof. apply length_replicate. Qed.

Lemma objs_declared_lookup init (k : nat) :
  (k < numObjects)%nat -> objs_declared init !! k = Some init.
Proof. intros Hk. now apply lookup_replicate_2. Qed.

Lemma test_objs_length bits init (objSetSize i : nat) :
  length (test_objs bits init objSetSize i) = numObjects.
Proof.
  unfold test_objs. rewrite apply_stores_length. apply objs_declared_length.
Qed.

(** After the inner loop, slots [2 * j] and [2 * j + 1] hold what iteration
    [j] stored, as long as the stores stay inside the array. *)
Lemma test_objs_pair bits init (objSetSize i j : nat) :
  (2 * objSetSize <= numObjects)%nat ->
  (j < objSetSize)%nat ->
  test_objs bits init objSetSize i !! (2 * j)%nat =
    Some (mkObject true false
            (to_ObjectAddress bits
               (read_object (Z.of_nat objSetSize) (Z.of_nat i) (Z.of_nat j))))
  /\ test_objs bits init objSetSize i !! (2 * j + 1)%nat =
    Some (mkObject true true
            (to_ObjectAddress bits
               (write_object (Z.of_nat objSetSize) (Z.of_nat i) (Z.of_nat j)))).
Proof.
  intros Hsize Hj. unfold test_objs.
  rewrite (test_stores_split bits objSetSize i j Hj), !apply_stores_app.
  set (before := apply_stores _ (objs_declared init)).
  assert (Hlen : length before = numObjects).
  { unfold before. rewrite apply_stores_length. apply objs_declared_length. }
  split.
  - rewrite apply_stores_lookup_other.
    + cbn. rewrite list_lookup_insert_ne by lia.
      apply list_lookup_insert_eq. lia.
    + intros s Hs. apply in_pair_stores in Hs as (j' & ? & [?|?]); lia.
  - rewrite apply_stores_lookup_other.
    + cbn. apply list_lookup_insert_eq. rewrite length_insert. lia.
    + intros s Hs. apply in_pair_stores in Hs as (j' & ? & [?|?]); lia.
Qed.

(** The slots past [2 * objSetSize] are never assigned. *)
Lemma test_objs_rest bits init (objSetSize i k : nat) :
  (2 * objSetSize <= k)%nat ->
  test_objs bits init objSetSize i !! k = objs_declared init !! k.
Proof.
  intros Hk. unfold test_objs, test_stores.
  apply apply_stores_lookup_other.
  intros s Hs. apply in_pair_stores in Hs as (j' & ? & [?|?]); lia.
Qed.

(** Every store of the generator is inside the array when
    [2 * objSetSize <= numObjects]. *)
Lemma test_stores_bound bits (objSetSize i : nat) (s : nat * Object) :
  In s (test_stores bits objSetSize i) -> (s.1 < 2 * objSetSize)%nat.
Proof.
  intros Hs. apply in_pair_stores in Hs as (j' & ? & [?|?]); lia.
Qed.

Lemma uint_small (z : Z) : 0 <= z < 2 ^ 32 -> uint z = z.
Proof. intros Hz. unfold uint. now apply Z.mod_small. Qed.

Lemma uint_range (z : Z) : 0 <= uint z < 2 ^ 32.
Proof. unfold uint. apply Z.mod_pos_bound. lia. Qed.

Lemma read_object_range (n x y : Z) : 0 <= read_object n x y < 2 ^ 32.
Proof. apply uint_range. Qed.

Lemma write_object_range (n x y : Z) : 0 <= write_object n x y < 2 ^ 32.
Proof.
  unfold write_object.
  repeat match goal with |- context [if ?b then _ else _] => destruct b end;
    apply uint_range.
Qed.

Lemma to_ObjectAddress_small bits (z : Z) :
  32 <= bits -> 0 <= z < 2 ^ 32 -> to_ObjectAddress bits z = z.
Proof.
  intros Hbits Hz. unfold to_ObjectAddress. apply Z.mod_small.
  assert (2 ^ 32 <= 2 ^ bits) by (apply Z.pow_le_mono_r; lia). lia.
Qed.

Lemma generate_lookup bits init (numTests maxScheduledObjects objSetSize i : nat) :
  Z.of_nat numTests * Z.of_nat maxScheduledObjects < 2 ^ 32 ->
  (i < numTests * maxScheduledObjects)%nat ->
  generate bits init numTests maxScheduledObjects objSetSize !! i
  = Some (test_objs bits init objSetSize i).
Proof.
  intros Hn Hi. unfold generate, umul.
  rewrite uint_small by lia.
  rewrite list_lookup_fmap, lookup_seq_lt by lia. reflexivity.
Qed.

Lemma generate_length bits init (numTests maxScheduledObjects objSetSize : nat) :
  Z.of_nat numTests * Z.of_nat maxScheduledObjects < 2 ^ 32 ->
  length (generate bits init numTests maxScheduledObjects objSetSize)
  = (numTests * maxScheduledObjects)%nat.
Proof.
  intros Hn. unfold generate, umul.
  rewrite uint_small by lia.
  rewrite length_fmap, length_seq. lia.
Qed.

(** Without wrap-around the object read is [objSetSize * i * 2 + j * 2]. *)
Lemma read_object_exact (n x y : Z) :
  0 <= n -> 0 <= x -> 0 <= y < n -> n * x * 2 + n * 2 <= 2 ^ 32 ->
  read_object n x y = n * x * 2 + y * 2.
Proof.
  intros Hn Hx Hy Hfit. unfold read_object, uadd, umul.
  assert (0 <= n * x) by nia.
  rewrite (uint_small (n * x)) by lia.
  rewrite (uint_small (n * x * 2)) by lia.
  rewrite (uint_small (y * 2)) by lia.
  apply uint_small. lia.
Qed.

(** Without wrap-around the object written is the one the four cases of
    [i mod 4] name. *)
Lemma write_object_exact (n x y : Z) :
  0 <= n -> 0 <= x -> 0 <= y < n -> n * x * 2 + n * 2 <= 2 ^ 32 ->
  write_object n x y =
    if x mod 4 =? 0 then n * x * 2 + y * 2 + 1
    else if x mod 4 =? 1 then n * (x - 1) * 2 + y * 2 + 1
    else if x mod 4 =? 2 then n * (x mod 2) * 2 + y * 2 + 1
    else n * 2 + y * 2 + 1.
Proof.
  intros Hn Hx Hy Hfit. unfold write_object, uadd, umul, usub.
  assert (0 <= n * x) by nia.
  rewrite (uint_small (y * 2)) by lia.
  destruct (x mod 4 =? 0) eqn:E0; [|destruct (x mod 4 =? 1) eqn:E1;
    [|destruct (x mod 4 =? 2) eqn:E2]].
  - rewrite (uint_small (n * x)) by lia.
    rewrite (uint_small (n * x * 2)) by lia.
    rewrite (uint_small (n * x * 2 + y * 2)) by lia.
    apply uint_small. lia.
  - apply Z.eqb_eq in E1.
    assert (Hodd : x mod 2 = 1) by lia_mod. rewrite Hodd.
    assert (1 <= x) by lia_mod.
    assert (0 <= n * (x - 1) <= n * x) by nia.
    rewrite (uint_small (x - 1)) by nia.
    rewrite (uint_small (n * (x - 1))) by lia.
    rewrite (uint_small (n * (x - 1) * 2)) by lia.
    rewrite (uint_small (n * (x - 1) * 2 + y * 2)) by lia.
    apply uint_small. lia.
  - apply Z.eqb_eq in E2.
    assert (Heven : x mod 2 = 0) by lia_mod. rewrite Heven.
    replace (n * 0) with 0 by lia.
    rewrite (uint_small 0) by lia.
    rewrite (uint_small (0 * 2)) by lia.
    rewrite (uint_small (0 * 2 + y * 2)) by lia.
    apply uint_small. nia.
  - assert (1 <= x) by (apply Z.eqb_neq in E0; lia_mod).
    assert (n <= n * x) by nia.
    rewrite (uint_small (n * 2)) by lia.
    rewrite (uint_small (n * 2 + y * 2)) by lia.
    apply uint_small. lia.
Qed.

(** ** The built-in tests *)

(** C1: in the built-in tests, for every test [i] below
    [numTests * maxScheduledObjects] and every [j] below [objSetSize], slot
    [2 * j] is a valid read of object [objSetSize * i * 2 + j * 2] and slot
    [2 * j + 1] is a valid write of the object that [i mod 4] selects.  The
    slots must fit the array and the object numbers an [unsigned]. *)
Theorem generator_accesses bits init
    (numTests maxScheduledObjects objSetSize i j : nat) :
  32 <= bits ->
  (2 * objSetSize <= numObjects)%nat ->
  2 * Z.of_nat objSetSize * (Z.of_nat numTests * Z.of_nat maxScheduledObjects)
    <= 2 ^ 32 ->
  (i < numTests * maxScheduledObjects)%nat ->
  (j < objSetSize)%nat ->
  let n := Z.of_nat objSetSize in
  let x := Z.of_nat i in
  let y := Z.of_nat j in
  exists objs,
    generate bits init numTests maxScheduledObjects objSetSize !! i = Some objs
    /\ objs !! (2 * j)%nat = Some (mkObject true false (n * x * 2 + y * 2))
    /\ objs !! (2 * j + 1)%nat =
         Some (mkObject true true
                 (if x mod 4 =? 0 then n * x * 2 + y * 2 + 1
                  else if x mod 4 =? 1 then n * (x - 1) * 2 + y * 2 + 1
                  else if x mod 4 =? 2 then n * (x mod 2) * 2 + y * 2 + 1
                  else n * 2 + y * 2 + 1)).
Proof.
  intros Hbits Hsize Hfit Hi Hj n x y.
  assert (Hn : 1 <= n) by (unfold n; lia).
  assert (HN : Z.of_nat numTests * Z.of_nat maxScheduledObjects < 2 ^ 32) by nia.
  assert (Hx : 0 <= x < Z.of_nat numTests * Z.of_nat maxScheduledObjects)
    by (unfold x; lia).
  assert (Hy : 0 <= y < n) by (unfold y, n; lia).
  assert (Hobj : n * x * 2 + n * 2 <= 2 ^ 32) by nia.
  exists (test_objs bits init objSetSize i).
  split; [now apply generate_lookup|].
  destruct (test_objs_pair bits init objSetSize i j Hsize Hj) as [Hr Hw].
  fold n x y in Hr, Hw.
  split.
  - rewrite Hr. do 2 f_equal.
    rewrite to_ObjectAddress_small by auto using read_object_range.
    apply read_object_exact; lia.
  - rewrite Hw. do 2 f_equal.
    rewrite to_ObjectAddress_small by auto using write_object_range.
    apply write_object_exact; lia.
Qed.

Lemma generator_accesses_witness :
  exists objs,
    generate 64 Object_unset 4 8 (numObjects / 2) !! 5%nat = Some objs
    /\ objs !! 6%nat = Some (mkObject true false 86)
    /\ objs !! 7%nat = Some (mkObject true true 71).
Proof.
  apply (generator_accesses 64 Object_unset 4 8 (numObjects / 2) 5 3);
    vm_compute; first [lia | congruence].
Defined.

Lemma filter_valid_all (b : bool) (objs : Transaction) :
  Forall (fun o => valid o = b) objs ->
  filter (fun o => valid o = b) objs = objs.
Proof.
  induction 1 as [|o objs Ho _ IH]; [reflexivity|].
  rewrite filter_cons_True by assumption. now rewrite IH.
Qed.

Lemma filter_valid_none (b : bool) (objs : Transaction) :
  Forall (fun o => valid o = negb b) objs ->
  filter (fun o => valid o = b) objs = [].
Proof.
  induction 1 as [|o objs Ho _ IH]; [reflexivity|].
  rewrite filter_cons_False; [assumption|].
  rewrite Ho. now destruct b.
Qed.

(** With [2 * objSetSize = numObjects] every slot is populated. *)
Lemma test_objs_full bits init (objSetSize i : nat) :
  (2 * objSetSize = numObjects)%nat ->
  Forall (fun o => valid o = true) (test_objs bits init objSetSize i).
Proof.
  intros Hsize. apply Forall_lookup. intros k o Hk.
  assert (Hlt : (k < numObjects)%nat).
  { rewrite <- (test_objs_length bits init objSetSize i).
    eapply lookup_lt_Some, Hk. }
  destruct (test_objs_pair bits init objSetSize i (k / 2)) as [Hr Hw];
    [lia | apply Nat.Div0.div_lt_upper_bound; lia |].
  destruct (Nat.eq_dec (k mod 2)%nat 0%nat) as [Heven|Hodd].
  - replace (2 * (k / 2))%nat with k in Hr
      by (pose proof (Nat.div_mod_eq k 2); lia).
    rewrite Hr in Hk. now inversion Hk.
  - replace (2 * (k / 2) + 1)%nat with k in Hw
      by (pose proof (Nat.div_mod_eq k 2);
          pose proof (Nat.mod_upper_bound k 2); lia).
    rewrite Hw in Hk. now inversion Hk.
Qed.

(** C3: the built-in tests are [numTests * maxScheduledObjects] = 32
    transactions, and each has [2 * objSetSize] = 16 valid slots, the
    [16 - 2 * objSetSize] = 0 other slots being invalid. *)
Theorem default_tests_shape bits init :
  length (default_tests bits init) = (4 * 8)%nat
  /\ forall objs, objs ∈ default_tests bits init ->
       length objs = numObjects
       /\ length (filter (fun o => valid o = true) objs)
          = (2 * (numObjects / 2))%nat
       /\ length (filter (fun o => valid o = false) objs)
          = (numObjects - 2 * (numObjects / 2))%nat.
Proof.
  split; [reflexivity|].
  intros objs Hobjs. unfold default_tests, generate in Hobjs.
  apply list_elem_of_fmap in Hobjs as (i & -> & _).
  pose proof (test_objs_full bits init (numObjects / 2) i eq_refl) as Hfull.
  pose proof (test_objs_length bits init (numObjects / 2) i) as Hlen.
  split; [assumption|]. split.
  - rewrite filter_valid_all by assumption. rewrite Hlen. reflexivity.
  - rewrite filter_valid_none by assumption. reflexivity.
Qed.

(** X22: the stores of the generator stay inside the array: whenever
    [2 * objSetSize] is at most [numObjects], as it is for the
    [numObjects / 2] of line 62, every store names one of the [numObjects]
    slots. *)
Theorem generator_stores_in_array bits (objSetSize i : nat) (s : nat * Object) :
  (2 * objSetSize <= numObjects)%nat ->
  In s (test_stores bits objSetSize i) ->
  (s.1 < numObjects)%nat.
Proof.
  intros Hsize Hs. apply test_stores_bound in Hs. lia.
Qed.

Lemma generator_stores_in_array_witness :
  ((0%nat, mkObject true false 0).1 < numObjects)%nat.
Proof.
  apply (generator_stores_in_array 64 (numObjects / 2) 0
           (0%nat, mkObject true false 0)).
  - vm_compute. lia.
  - left. reflexivity.
Defined.

(** ** Reading text: properties *)

(** [getlines] is [getline] called until it fails. *)
Lemma getlines_unfold (delim : ascii) (s : string) :
  getlines delim s =
    match getline delim s with
    | None => []
    | Some (t, rest) => t :: getlines delim rest
    end.
Proof.
  induction s as [|c s IH]; [reflexivity|].
  cbn. destruct (Ascii.eqb c delim); [reflexivity|].
  rewrite IH. destruct (getline delim s) as [[t rest]|]; reflexivity.
Qed.

Lemma getline_None (delim : ascii) (s : string) :
  getline delim s = None <-> s = EmptyString.
Proof.
  split; [|now intros ->].
  destruct s as [|c s]; [reflexivity|]. cbn.
  destruct (Ascii.eqb c delim); [discriminate|].
  destruct (getline delim s) as [[t rest]|]; discriminate.
Qed.

Lemma length_zero_empty (value : string) :
  (String.length value =? 0)%nat = true <-> value = EmptyString.
Proof.
  destruct value; cbn; split; intros H; try reflexivity; discriminate.
Qed.

(** No label starts with both prefixes. *)
Lemma prefix_Written_not_Read (label : string) :
  String.prefix "Written object" label = true ->
  String.prefix "Read object" label = false.
Proof.
  destruct label as [|c label]; [discriminate|].
  change (String.prefix "Written object" (String c label))
    with (if ascii_dec "W" c
          then String.prefix "ritten object" label else false).
  change (String.prefix "Read object" (String c label))
    with (if ascii_dec "R" c
          then String.prefix "ead object" label else false).
  destruct (ascii_dec "W" c) as [<-|]; [|intros; discriminate].
  intros _. reflexivity.
Qed.

(** ** The header *)

Lemma column_head begins (label : string) (rest : list string) :
  column begins (label :: rest) 0 <-> begins label = true.
Proof.
  unfold column. cbn. split.
  - intros (l & [= ->] & Hl). exact Hl.
  - intros Hl. eauto.
Qed.

Lemma column_tail begins (label : string) (rest : list string) (n : nat) :
  column begins (label :: rest) (S n) <-> column begins rest n.
Proof. reflexivity. Qed.

Lemma column_shift begins (label : string) (rest : list string) (i k : nat) :
  (i <= k)%nat ->
  column begins (label :: rest) (k - i)
  <-> (k = i /\ begins label = true)
      \/ ((S i <= k)%nat /\ column begins rest (k - S i)).
Proof.
  intros Hik. destruct (decide (k = i)) as [->|Hne].
  - rewrite Nat.sub_diag, column_head. split; [auto|].
    intros [[_ H]|[H _]]; [exact H|lia].
  - replace (k - i)%nat with (S (k - S i)) by lia.
    rewrite column_tail. split; [intros H; right; split; [lia|exact H]|].
    intros [[H _]|[_ H]]; [lia|exact H].
Qed.

(** The two sets the loop over the labels builds. *)
Lemma header_loop_sets (labels : list string) (i : nat)
    (R0 W0 R W : gset nat) :
  header_loop i labels R0 W0 = (R, W) ->
  forall k,
    (k ∈ R <-> k ∈ R0 \/ ((i <= k)%nat /\ read_column labels (k - i)))
    /\ (k ∈ W <-> k ∈ W0 \/ ((i <= k)%nat /\ write_column labels (k - i))).
Proof.
  revert i R0 W0. induction labels as [|label rest IH]; intros i R0 W0 H k.
  - cbn in H. injection H as <- <-. unfold read_column, write_column, column.
    split; (split; [auto|]); intros [?|(_ & l & Hl & _)]; auto; discriminate.
  - cbn [header_loop] in H.
    assert (Hdisj : String.prefix "Read object" label = true ->
                    String.prefix "Written object" label = false).
    { intros Hr. destruct (String.prefix "Written object" label) eqn:Hw;
        [|reflexivity].
      apply prefix_Written_not_Read in Hw. congruence. }
    destruct (le_lt_dec i k) as [Hik|Hik].
    + unfold read_column, write_column.
      rewrite !(column_shift _ label rest i k Hik).
      destruct (String.prefix "Read object" label) eqn:Hr;
        [rewrite (Hdisj eq_refl)
        |destruct (String.prefix "Written object" label) eqn:Hw];
        destruct (IH _ _ _ H k) as [HR HW]; rewrite HR, HW;
        rewrite ?elem_of_union, ?elem_of_singleton;
        unfold read_column, write_column;
        intuition (lia || congruence).
    + destruct (String.prefix "Read object" label);
        [|destruct (String.prefix "Written object" label)];
        destruct (IH _ _ _ H k) as [HR HW]; rewrite HR, HW;
        rewrite ?elem_of_union, ?elem_of_singleton;
        intuition lia.
Qed.

(** The sets built from a header are the columns its labels mark. *)
Lemma header_loop_columns (labels : list string) (R W : gset nat) :
  header_loop 0 labels ∅ ∅ = (R, W) ->
  forall k, (k ∈ R <-> read_column labels k)
            /\ (k ∈ W <-> write_column labels k).
Proof.
  intros H k. destruct (header_loop_sets labels 0 ∅ ∅ R W H k) as [HR HW].
  rewrite Nat.sub_0_r in HR, HW. rewrite HR, HW.
  split; (split; [intros [Hin|[_ Hc]]; [set_solver|exact Hc]|]);
    intros Hc; right; (split; [lia|exact Hc]).
Qed.

(** ** One line *)

Lemma value_step_skip bits (R W : gset nat) (objs : Transaction) (i : nat)
    (value : string) :
  value = EmptyString \/ ((i ∉ R) /\ (i ∉ W)) ->
  value_step bits R W objs i value = inr objs.
Proof.
  intros H. unfold value_step, set_contains.
  destruct H as [->|[HR HW]]; [reflexivity|].
  rewrite (bool_decide_eq_false_2 _ HR), (bool_decide_eq_false_2 _ HW).
  now rewrite andb_false_r.
Qed.

Lemma value_step_parse bits (R W : gset nat) (objs : Transaction) (i : nat)
    (value : string) :
  value <> EmptyString -> i ∈ R \/ i ∈ W ->
  value_step bits R W objs i value =
    match stoul value with
    | invalid_argument => inl 3
    | out_of_range => inl 4
    | Value v =>
        inr (<[ i := mkObject true (set_contains W i)
                              (to_ObjectAddress bits v) ]> objs)
    end.
Proof.
  intros Hne Hin. unfold value_step.
  destruct (String.length value =? 0)%nat eqn:Hlen.
  { apply length_zero_empty in Hlen. contradiction. }
  assert (set_contains R i || set_contains W i = true) as ->; [|reflexivity].
  unfold set_contains. apply orb_true_iff.
  destruct Hin; [left|right]; now apply bool_decide_eq_true_2.
Qed.

(** Whether a value is taken as an address can be decided. *)
Lemma value_step_cases (R W : gset nat) (i : nat) (value : string) :
  (value = EmptyString \/ ((i ∉ R) /\ (i ∉ W)))
  \/ (value <> EmptyString /\ (i ∈ R \/ i ∈ W)).
Proof.
  destruct (decide (value = EmptyString)); [auto|].
  destruct (decide (i ∈ R)); [auto|].
  destruct (decide (i ∈ W)); auto.
Qed.

Lemma value_step_accepted bits (R W : gset nat) (objs : Transaction)
    (i : nat) (value : string) :
  accepted R W i value <->
  exists objs', value_step bits R W objs i value = inr objs'.
Proof.
  unfold accepted.
  destruct (value_step_cases R W i value) as [Hskip|[Hne Hin]].
  - rewrite value_step_skip by assumption. split; [eauto|].
    intros _ Hne Hin. destruct Hskip as [->|[? ?]]; [contradiction|].
    destruct Hin; contradiction.
  - rewrite value_step_parse by assumption. split.
    + intros H. destruct (H Hne Hin) as [v ->]. eauto.
    + intros [objs' H] _ _. destruct (stoul value); [eauto|discriminate..].
Qed.

(** A step changes no slot but its own, and never the length. *)
Lemma value_step_other bits (R W : gset nat) (objs objs' : Transaction)
    (i k : nat) (value : string) :
  value_step bits R W objs i value = inr objs' ->
  length objs' = length objs /\ (k <> i -> objs' !! k = objs !! k).
Proof.
  destruct (value_step_cases R W i value) as [Hskip|[Hne Hin]].
  - rewrite value_step_skip by assumption. intros [= <-]. auto.
  - rewrite value_step_parse by assumption.
    destruct (stoul value); [|discriminate..]. intros [= <-].
    split; [apply length_insert|].
    intros Hk. now apply list_lookup_insert_ne.
Qed.

(** What a step leaves in its own slot depends on that slot alone. *)
Lemma value_step_same_slot bits (R W : gset nat) (a a' b : Transaction)
    (k : nat) (value : string) :
  a !! k = b !! k ->
  value_step bits R W a k value = inr a' ->
  exists b', value_step bits R W b k value = inr b' /\ a' !! k = b' !! k.
Proof.
  intros Hab.
  destruct (value_step_cases R W k value) as [Hskip|[Hne Hin]].
  - rewrite !value_step_skip by assumption. intros [= <-]. eauto.
  - rewrite !value_step_parse by assumption.
    destruct (stoul value); [|discriminate..]. intros [= <-].
    eexists; split; [reflexivity|].
    destruct (decide (k < length a)%nat) as [Hlt|Hge].
    + rewrite !list_lookup_insert_eq; [reflexivity| |assumption].
      apply lookup_lt_is_Some. rewrite <- Hab. now apply lookup_lt_is_Some.
    + rewrite !list_insert_ge; [assumption| |lia].
      apply lookup_ge_None. rewrite <- Hab. apply lookup_ge_None. lia.
Qed.

Lemma values_loop_cons bits (R W : gset nat) (i : nat) (value : string)
    (rest : list string) (objs : Transaction) :
  (i < numObjects)%nat ->
  values_loop bits R W i (value :: rest) objs =
    match value_step bits R W objs i value with
    | inl code => inl code
    | inr objs' => values_loop bits R W (S i) rest objs'
    end.
Proof.
  intros Hi. cbn [values_loop].
  destruct (Nat.ltb_spec i numObjects); [reflexivity|lia].
Qed.

Lemma values_loop_full bits (R W : gset nat) (i : nat)
    (values : list string) (objs : Transaction) :
  (numObjects <= i)%nat ->
  values_loop bits R W i values objs = inr objs.
Proof.
  intros Hi. destruct values as [|value rest]; [reflexivity|].
  cbn [values_loop]. destruct (Nat.ltb_spec i numObjects); [lia|reflexivity].
Qed.

(** After the loop over the values of a line: the length is unchanged; a
    slot outside the columns read keeps what it held; the slot of a column
    read holds what the step of that column alone leaves there. *)
Lemma values_loop_slots bits (R W : gset nat) (values : list string) :
  forall (i : nat) (objs objs' : Transaction),
  values_loop bits R W i values objs = inr objs' ->
  length objs' = length objs
  /\ (forall k, (k < i)%nat \/ (numObjects <= k)%nat
                \/ values !! (k - i)%nat = None ->
                objs' !! k = objs !! k)
  /\ (forall k value, (i <= k < numObjects)%nat ->
                      values !! (k - i)%nat = Some value ->
                      exists o, value_step bits R W objs k value = inr o
                                /\ objs' !! k = o !! k).
Proof.
  induction values as [|value rest IH]; intros i objs objs' H.
  - cbn in H. injection H as <-.
    split; [reflexivity|]. split; [reflexivity|].
    intros k value _ Hk. discriminate.
  - destruct (le_lt_dec numObjects i) as [Hfull|Hi].
    { rewrite values_loop_full in H by assumption. injection H as <-.
      split; [reflexivity|]. split; [reflexivity|]. intros; lia. }
    rewrite values_loop_cons in H by assumption.
    destruct (value_step bits R W objs i value) as [code|objs1] eqn:Hstep;
      [discriminate|].
    destruct (IH _ _ _ H) as (Hlen & Hkeep & Hread).
    pose proof (value_step_other bits R W objs objs1 i) as Hother.
    split; [|split].
    + rewrite Hlen. now apply (Hother i value).
    + intros k Hk.
      assert (Hne : k <> i).
      { destruct Hk as [?|[?|Hk]]; [lia..|].
        intros ->. rewrite Nat.sub_diag in Hk. discriminate. }
      rewrite Hkeep; [now apply (Hother k value)|].
      destruct Hk as [?|[?|Hk]]; [left; lia|auto|].
      destruct (le_lt_dec i k); [|left; lia].
      right; right. replace (k - i)%nat with (S (k - S i)) in Hk by lia.
      exact Hk.
    + intros k v Hk Hv. destruct (decide (k = i)) as [->|Hne].
      * rewrite Nat.sub_diag in Hv. injection Hv as <-.
        exists objs1. split; [assumption|]. apply Hkeep. left. lia.
      * replace (k - i)%nat with (S (k - S i)) in Hv by lia.
        destruct (Hread k v) as (o & Ho & Hslot); [lia|exact Hv|].
        destruct (value_step_same_slot bits R W objs1 o objs k v)
          as (o' & Ho' & Heq); [now apply (Hother k value)|assumption|].
        exists o'. split; [assumption|]. now rewrite Hslot.
Qed.

(** The loop returns early exactly when a value is rejected. *)
Lemma values_loop_rejected bits (R W : gset nat) (values : list string) :
  forall (i : nat) (objs : Transaction) (code : Z),
  values_loop bits R W i values objs = inl code
  <-> rejected_from R W i values code.
Proof.
  induction values as [|value rest IH]; intros i objs code.
  - cbn. split; [discriminate|]. intros (n & v & _ & Hv & _). discriminate.
  - destruct (le_lt_dec numObjects i) as [Hfull|Hi].
    { rewrite values_loop_full by assumption. split; [discriminate|].
      intros (n & v & Hn & _). lia. }
    rewrite values_loop_cons by assumption.
    destruct (value_step_cases R W i value) as [Hskip|[Hne Hin]].
    + rewrite value_step_skip by assumption. rewrite IH. split.
      * intros (n & v & Hn & Hv & Hnev & Hm & Hcode & Hbefore).
        exists (S n), v. rewrite Nat.add_succ_r.
        repeat split; try assumption.
        intros m v' Hlt Hv'. destruct m as [|m].
        -- injection Hv' as <-. rewrite Nat.add_0_r.
           intros Hne' Hin'. destruct Hskip as [->|[? ?]]; [contradiction|].
           destruct Hin'; contradiction.
        -- rewrite Nat.add_succ_r. apply Hbefore; [lia|exact Hv'].
      * intros (n & v & Hn & Hv & Hnev & Hm & Hcode & Hbefore).
        destruct n as [|n].
        -- injection Hv as <-. rewrite Nat.add_0_r in Hm.
           destruct Hskip as [->|[? ?]]; [contradiction|].
           destruct Hm; contradiction.
        -- exists n, v. rewrite Nat.add_succ_r in Hn, Hm.
           repeat split; try assumption.
           intros m v' Hlt Hv'.
           specialize (Hbefore (S m) v'). rewrite Nat.add_succ_r in Hbefore.
           apply Hbefore; [lia|exact Hv'].
    + rewrite value_step_parse by assumption.
      destruct (stoul value) as [v| |] eqn:Hstoul.
      * rewrite IH. split.
        -- intros (n & v' & Hn & Hv & Hnev & Hm & Hcode & Hbefore).
           exists (S n), v'. rewrite Nat.add_succ_r.
           repeat split; try assumption.
           intros m v'' Hlt Hv''. destruct m as [|m].
           ++ injection Hv'' as <-. intros _ _. eauto.
           ++ rewrite Nat.add_succ_r. apply Hbefore; [lia|exact Hv''].
        -- intros (n & v' & Hn & Hv & Hnev & Hm & Hcode & Hbefore).
           destruct n as [|n].
           ++ injection Hv as <-. rewrite Hstoul in Hcode.
              destruct Hcode as [[_ ?]|[_ ?]]; discriminate.
           ++ exists n, v'. rewrite Nat.add_succ_r in Hn, Hm.
              repeat split; try assumption.
              intros m v'' Hlt Hv''.
              specialize (Hbefore (S m) v''). rewrite Nat.add_succ_r in Hbefore.
              apply Hbefore; [lia|exact Hv''].
      * split.
        -- intros [= <-]. exists 0%nat, value. rewrite Nat.add_0_r.
           repeat split; auto; lia.
        -- intros (n & v' & Hn & Hv & Hnev & Hm & Hcode & Hbefore).
           destruct n as [|n].
           ++ injection Hv as <-. rewrite Hstoul in Hcode.
              destruct Hcode as [[-> _]|[_ ?]]; [reflexivity|discriminate].
           ++ specialize (Hbefore 0%nat value). rewrite Nat.add_0_r in Hbefore.
              destruct Hbefore as [? Hacc]; [lia|reflexivity|assumption..|].
              rewrite Hstoul in Hacc. discriminate.
      * split.
        -- intros [= <-]. exists 0%nat, value. rewrite Nat.add_0_r.
           repeat split; auto; lia.
        -- intros (n & v' & Hn & Hv & Hnev & Hm & Hcode & Hbefore).
           destruct n as [|n].
           ++ injection Hv as <-. rewrite Hstoul in Hcode.
              destruct Hcode as [[_ ?]|[-> _]]; [discriminate|reflexivity].
           ++ specialize (Hbefore 0%nat value). rewrite Nat.add_0_r in Hbefore.
              destruct Hbefore as [? Hacc]; [lia|reflexivity|assumption..|].
              rewrite Hstoul in Hacc. discriminate.
Qed.

(** A line is parsed as soon as each of its first [numObjects] values is
    accepted. *)
Lemma parse_line_accepted bits init (R W : gset nat) (line : string) :
  (forall k value, (k < numObjects)%nat ->
                   getlines comma line !! k = Some value ->
                   accepted R W k value) ->
  exists objs, parse_line bits init R W line = inr objs.
Proof.
  intros Hacc. unfold parse_line.
  destruct (values_loop bits R W 0 (getlines comma line) (objs_declared init))
    as [code|objs] eqn:H; [|eauto].
  apply values_loop_rejected in H
    as (n & value & Hn & Hv & Hne & Hin & Hcode & _).
  destruct (Hacc n value Hn Hv Hne Hin) as [v Hstoul].
  rewrite Hstoul in Hcode. destruct Hcode as [[_ ?]|[_ ?]]; discriminate.
Qed.

(** The slots of a parsed line. *)
Lemma parse_line_slots bits init (R W : gset nat) (line : string)
    (objs : Transaction) :
  parse_line bits init R W line = inr objs ->
  length objs = numObjects
  /\ (forall k value, (k < numObjects)%nat ->
         getlines comma line !! k = Some value ->
         value <> EmptyString -> k ∈ R \/ k ∈ W ->
         exists v, stoul value = Value v
                   /\ objs !! k = Some (mkObject true (bool_decide (k ∈ W))
                                                  (to_ObjectAddress bits v)))
  /\ (forall k, (k < numObjects)%nat ->
         getlines comma line !! k = None
         \/ getlines comma line !! k = Some EmptyString
         \/ ((k ∉ R) /\ (k ∉ W)) ->
         objs !! k = Some init).
Proof.
  unfold parse_line. intros H.
  apply values_loop_slots in H as (Hlen & Hkeep & Hread).
  rewrite objs_declared_length in Hlen.
  split; [assumption|]. split.
  - intros k value Hk Hv Hne Hin.
    destruct (Hread k value) as (o & Ho & Hslot);
      [lia|now rewrite Nat.sub_0_r|].
    rewrite value_step_parse in Ho by assumption.
    destruct (stoul value) as [v| |]; [|discriminate..].
    injection Ho as <-. exists v. split; [reflexivity|].
    rewrite Hslot. apply list_lookup_insert_eq.
    rewrite objs_declared_length. exact Hk.
  - intros k Hk Hcase.
    destruct (getlines comma line !! k) as [value|] eqn:Hv.
    + destruct (Hread k value) as (o & Ho & Hslot);
        [lia|now rewrite Nat.sub_0_r|].
      rewrite value_step_skip in Ho.
      * injection Ho as <-. rewrite Hslot.
        now apply objs_declared_lookup.
      * destruct Hcase as [?|[[= ->]|?]]; [discriminate|auto..].
    + rewrite Hkeep; [now apply objs_declared_lookup|].
      right; right. now rewrite Nat.sub_0_r.
Qed.

(** ** One file, and all of them *)

(** The transactions of the lines are appended to those already there. *)
Lemma lines_loop_tests bits init (R W : gset nat) (lines : list string) :
  forall tests,
  lines_loop bits init R W lines tests =
    match lines_loop bits init R W lines [] with
    | inl code => inl code
    | inr new => inr (tests ++ new)
    end.
Proof.
  induction lines as [|line rest IH]; intros tests.
  - cbn. now rewrite app_nil_r.
  - cbn [lines_loop]. destruct (parse_line bits init R W line) as [code|objs];
      [reflexivity|].
    cbn. rewrite (IH (tests ++ [objs])), (IH [objs]).
    destruct (lines_loop bits init R W rest []) as [code|new]; [reflexivity|].
    now rewrite <- app_assoc.
Qed.

(** One transaction for each line, in the order of the lines. *)
Lemma lines_loop_inr bits init (R W : gset nat) (lines : list string)
    (new : list Transaction) :
  lines_loop bits init R W lines [] = inr new
  <-> Forall2 (fun line objs => parse_line bits init R W line = inr objs)
             lines new.
Proof.
  revert new. induction lines as [|line rest IH]; intros new.
  - cbn. split.
    + intros [= <-]. constructor.
    + intros H. now inversion H.
  - cbn [lines_loop]. destruct (parse_line bits init R W line) as [code|objs] eqn:Hp.
    + cbn. split; [discriminate|]. intros H. inversion H; congruence.
    + cbn. rewrite lines_loop_tests.
      destruct (lines_loop bits init R W rest []) as [code|new'] eqn:Hrest.
      * split; [discriminate|]. intros H. inversion H as [|? o ? new' Ho Hf]; subst.
        apply IH in Hf. discriminate.
      * split.
        -- intros [= <-]. constructor; [assumption|]. now apply IH.
        -- intros H. inversion H as [|? o ? new'' Ho Hf]; subst.
           apply IH in Hf. injection Hf as <-. cbn. congruence.
Qed.

(** The loop over the lines returns early at the first line that does. *)
Lemma lines_loop_inl bits init (R W : gset nat) (lines : list string)
    (tests : list Transaction) (code : Z) :
  lines_loop bits init R W lines tests = inl code
  <-> exists good line more,
        lines = good ++ line :: more
        /\ Forall (fun l => exists objs, parse_line bits init R W l = inr objs)
                  good
        /\ parse_line bits init R W line = inl code.
Proof.
  revert tests. induction lines as [|line rest IH]; intros tests.
  - cbn. split; [discriminate|].
    intros (good & l & more & H & _). now destruct good.
  - cbn [lines_loop].
    destruct (parse_line bits init R W line) as [c|objs] eqn:Hp; cbn.
    + split.
      * intros [= <-]. exists [], line, rest. auto.
      * intros (good & l & more & H & Hgood & Hl).
        destruct good as [|g good]; cbn in H; injection H as -> ->.
        -- congruence.
        -- inversion Hgood as [|? ? [o Ho] _]; subst. congruence.
    + rewrite IH. split.
      * intros (good & l & more & -> & Hgood & Hl).
        exists (line :: good), l, more. split; [reflexivity|].
        split; [constructor; eauto|assumption].
      * intros (good & l & more & H & Hgood & Hl).
        destruct good as [|g good]; cbn in H; injection H as -> ->.
        -- congruence.
        -- inversion Hgood; subst. exists good, l, more. auto.
Qed.

Lemma load_file_tests bits init files (path : string) (tests : list Transaction) :
  load_file bits init files path tests =
    match load_file bits init files path [] with
    | inl code => inl code
    | inr new => inr (tests ++ new)
    end.
Proof.
  unfold load_file. destruct (files path) as [source|]; [|reflexivity].
  destruct (getline newline source) as [[header content]|]; [|reflexivity].
  destruct (header_loop 0 (getlines comma header) ∅ ∅) as [R W].
  apply lines_loop_tests.
Qed.

Lemma files_loop_app bits init files (paths1 paths2 : list string) :
  forall tests,
  files_loop bits init files (paths1 ++ paths2) tests =
    match files_loop bits init files paths1 tests with
    | inl code => inl code
    | inr tests' => files_loop bits init files paths2 tests'
    end.
Proof.
  induction paths1 as [|path rest IH]; intros tests; [reflexivity|].
  cbn [files_loop app].
  destruct (load_file bits init files path tests) as [code|tests'];
    [reflexivity|apply IH].
Qed.


(** ** Running the tests *)

(** C4: once [tests] is built, [main] calls [enqueueTransaction] once for
    every transaction, in the order of [tests], with its index in [tests]
    as identifier; the identifiers start at 0 and increase. *)
Theorem run_tests_identifiers bits init files (argv : list string)
    (tests : list Transaction) :
  build_tests bits init files argv = inr tests ->
  let r := main bits init files argv in
  status r = None
  /\ length (calls r) = length tests
  /\ (forall i id objs,
        calls r !! i = Some (id, objs)
        <-> id = Z.of_nat i /\ tests !! i = Some objs)
  /\ (forall i j c1 c2,
        (i < j)%nat -> calls r !! i = Some c1 -> calls r !! j = Some c2 ->
        c1.1 < c2.1).
Proof.
  intros Hbuild r. unfold r, main. rewrite Hbuild. cbn [status calls].
  unfold run_tests. split; [reflexivity|]. split; [apply length_imap|].
  split.
  - intros i id objs. rewrite list_lookup_imap.
    destruct (tests !! i) as [o|]; cbn; split.
    + intros [= <- <-]. auto.
    + intros [-> [= ->]]. reflexivity.
    + discriminate.
    + intros [_ ?]. discriminate.
  - intros i j c1 c2 Hij. rewrite !list_lookup_imap.
    destruct (tests !! i), (tests !! j); cbn; try discriminate.
    intros [= <-] [= <-]. cbn. lia.
Qed.

Lemma run_tests_identifiers_witness :
  status (main 64 Object_unset example_files ["prog"; "tests.csv"]%string)
  = None
  /\ length (calls (main 64 Object_unset example_files
                         ["prog"; "tests.csv"]%string)) = 2%nat
  /\ calls (main 64 Object_unset example_files ["prog"; "tests.csv"]%string)
       !! 1%nat
     = Some (1, <[ 2%nat := mkObject true true 12 ]> (objs_declared Object_unset)).
Proof.
  destruct (run_tests_identifiers 64 Object_unset example_files
              ["prog"; "tests.csv"]%string
              [ <[ 2%nat := mkObject true true 7 ]>
                  (<[ 0%nat := mkObject true false 5 ]>
                     (objs_declared Object_unset));
                <[ 2%nat := mkObject true true 12 ]>
                  (objs_declared Object_unset) ])
    as (Hstatus & Hlength & Hcalls & _).
  - vm_compute. reflexivity.
  - split; [exact Hstatus|]. split; [exact Hlength|].
    apply Hcalls. split; reflexivity.
Defined.



(** ** Early returns *)

Lemma main_returns bits init files (argv : list string) (code : Z) :
  build_tests bits init files argv = inl code ->
  main bits init files argv = mkRun [] (Some code).
Proof. intros H. unfold main. now rewrite H. Qed.

Lemma parse_line_code bits init (R W : gset nat) (line : string) (code : Z) :
  parse_line bits init R W line = inl code -> code = 3 \/ code = 4.
Proof.
  unfold parse_line. intros H.
  apply values_loop_rejected in H as (n & value & _ & _ & _ & _ & Hcode & _).
  destruct Hcode as [[-> _]|[-> _]]; auto.
Qed.

Lemma load_file_code bits init files (path : string)
    (tests : list Transaction) (code : Z) :
  load_file bits init files path tests = inl code ->
  code = 1 \/ code = 2 \/ code = 3 \/ code = 4.
Proof.
  unfold load_file. destruct (files path) as [source|]; [|intros [= <-]; auto].
  destruct (getline newline source) as [[header content]|];
    [|intros [= <-]; auto].
  destruct (header_loop 0 (getlines comma header) ∅ ∅) as [R W].
  intros H. apply lines_loop_inl in H as (_ & line & _ & _ & _ & H).
  apply parse_line_code in H. tauto.
Qed.

Lemma files_loop_code bits init files (paths : list string) :
  forall (tests : list Transaction) (code : Z),
  files_loop bits init files paths tests = inl code ->
  code = 1 \/ code = 2 \/ code = 3 \/ code = 4.
Proof.
  induction paths as [|path rest IH]; intros tests code; [discriminate|].
  cbn [files_loop].
  destruct (load_file bits init files path tests) as [c|tests'] eqn:Hload; cbn.
  - intros [= <-]. eapply load_file_code, Hload.
  - apply IH.
Qed.

(** What [main] does with the arguments up to the first file that makes it
    return. *)
Lemma build_tests_upto bits init files (prog : string) (before : list string)
    (path : string) (after : list string) (tests : list Transaction)
    (code : Z) :
  files_loop bits init files before [] = inr tests ->
  load_file bits init files path tests = inl code ->
  build_tests bits init files (prog :: before ++ path :: after) = inl code.
Proof.
  intros Hbefore Hload. unfold build_tests.
  replace (length (prog :: before ++ path :: after) <=? 1)%nat with false
    by (destruct before; reflexivity).
  cbn [tail]. rewrite files_loop_app, Hbefore. cbn [files_loop].
  now rewrite Hload.
Qed.

(** C6: [main] returns 1 at a file that cannot be opened, 2 at a file
    without a header line, 3 at an address that is not a number and 4 at one
    that is out of range; whenever it returns, nothing has been enqueued. *)
Theorem load_failures bits init files (prog : string) (before : list string)
    (path : string) (after : list string) (tests : list Transaction) :
  files_loop bits init files before [] = inr tests ->
  let r := main bits init files (prog :: before ++ path :: after) in
  (forall argv code,
     status (main bits init files argv) = Some code ->
     calls (main bits init files argv) = []
     /\ (code = 1 \/ code = 2 \/ code = 3 \/ code = 4))
  /\ (files path = None -> r = mkRun [] (Some 1))
  /\ (files path = Some EmptyString -> r = mkRun [] (Some 2))
  /\ (forall source header content R W good line more code,
        files path = Some source ->
        getline newline source = Some (header, content) ->
        header_loop 0 (getlines comma header) ∅ ∅ = (R, W) ->
        getlines newline content = good ++ line :: more ->
        Forall (fun l => exists objs, parse_line bits init R W l = inr objs)
               good ->
        rejected R W (getlines comma line) code ->
        (code = 3 \/ code = 4) /\ r = mkRun [] (Some code)).
Proof.
  intros Hbefore r. split; [|split; [|split]].
  - intros argv code. unfold main.
    destruct (build_tests bits init files argv) as [c|ts] eqn:Hbuild;
      cbn; [|discriminate].
    intros [= ->]. split; [reflexivity|].
    unfold build_tests in Hbuild.
    destruct (length argv <=? 1)%nat; [discriminate|].
    eapply files_loop_code, Hbuild.
  - intros Hfile. apply main_returns, build_tests_upto with tests;
      [assumption|].
    unfold load_file. now rewrite Hfile.
  - intros Hfile. apply main_returns, build_tests_upto with tests;
      [assumption|].
    unfold load_file. now rewrite Hfile.
  - intros source header content R W good line more code
      Hfile Hheader Hsets Hlines Hgood Hrej.
    split.
    + destruct Hrej as (_ & _ & _ & _ & _ & _ & [[-> _]|[-> _]] & _); auto.
    + apply main_returns, build_tests_upto with tests; [assumption|].
      unfold load_file. rewrite Hfile, Hheader, Hsets.
      apply lines_loop_inl. exists good, line, more.
      split; [assumption|]. split; [assumption|].
      unfold parse_line. now apply values_loop_rejected.
Qed.

Lemma load_failures_witness :
  main 64 Object_unset example_files
       ["prog"; "tests.csv"; "missing.csv"; "tests.csv"]%string
  = mkRun [] (Some 1)
  /\ main 64 Object_unset example_files
          ["prog"; "tests.csv"; "empty.csv"; "tests.csv"]%string
     = mkRun [] (Some 2)
  /\ main 64 Object_unset example_files
          ["prog"; "tests.csv"; "letters.csv"; "tests.csv"]%string
     = mkRun [] (Some 3)
  /\ main 64 Object_unset example_files
          ["prog"; "tests.csv"; "large.csv"; "tests.csv"]%string
     = mkRun [] (Some 4).
Proof.
  assert (Hbefore :
    files_loop 64 Object_unset example_files ["tests.csv"]%string []
    = inr [ <[ 2%nat := mkObject true true 7 ]>
              (<[ 0%nat := mkObject true false 5 ]>
                 (objs_declared Object_unset));
            <[ 2%nat := mkObject true true 12 ]>
              (objs_declared Object_unset) ])
    by (vm_compute; reflexivity).
  split; [|split; [|split]].
  - apply (load_failures 64 Object_unset example_files "prog"
             ["tests.csv"]%string "missing.csv" ["tests.csv"]%string _
             Hbefore).
    reflexivity.
  - apply (load_failures 64 Object_unset example_files "prog"
             ["tests.csv"]%string "empty.csv" ["tests.csv"]%string _
             Hbefore).
    reflexivity.
  - destruct (load_failures 64 Object_unset example_files "prog"
                ["tests.csv"]%string "letters.csv" ["tests.csv"]%string _
                Hbefore)
      as (_ & _ & _ & Hrejected).
    apply (Hrejected (unlines ["Read object 1"; "abc"]%string)
             "Read object 1"%string (unlines ["abc"]%string)
             ({[ 0%nat ]} ∪ ∅) ∅ [] "abc"%string [] 3);
      try reflexivity; [constructor|].
    exists 0%nat, "abc"%string.
    split; [unfold numObjects; lia|]. split; [reflexivity|].
    split; [discriminate|]. split; [left; set_solver|].
    split; [left; split; reflexivity|]. intros m v Hm. lia.
  - destruct (load_failures 64 Object_unset example_files "prog"
                ["tests.csv"]%string "large.csv" ["tests.csv"]%string _
                Hbefore)
      as (_ & _ & _ & Hrejected).
    apply (Hrejected (unlines ["Read object 1"; "99999999999999999999"]%string)
             "Read object 1"%string (unlines ["99999999999999999999"]%string)
             ({[ 0%nat ]} ∪ ∅) ∅ [] "99999999999999999999"%string [] 4);
      try reflexivity; [constructor|].
    exists 0%nat, "99999999999999999999"%string.
    split; [unfold numObjects; lia|]. split; [reflexivity|].
    split; [discriminate|]. split; [left; set_solver|].
    split; [right; split; reflexivity|]. intros m v Hm. lia.
Defined.

(** ** Addresses *)

Lemma digit_not_space_or_sign (c : ascii) (d : Z) :
  digit_of c = Some d ->
  isspace c = false /\ Ascii.eqb c "-" = false /\ Ascii.eqb c "+" = false.
Proof.
  destruct c as [[] [] [] [] [] [] [] []]; vm_compute; intros H;
    first [discriminate H | repeat split].
Qed.

Lemma digit_of_range (c : ascii) (d : Z) : digit_of c = Some d -> 0 <= d <= 9.
Proof.
  unfold digit_of.
  destruct (48 <=? Z.of_N (N_of_ascii c)) eqn:H1;
    destruct (Z.of_N (N_of_ascii c) <=? 57) eqn:H2; cbn; try discriminate.
  intros [= <-]. lia.
Qed.

Lemma decimal_from (ds : list Z) (acc : Z) :
  fold_left (fun a d => a * 10 + d) ds acc
  = acc * 10 ^ Z.of_nat (length ds) + decimal ds.
Proof.
  unfold decimal. revert acc. induction ds as [|d ds IH]; intros acc.
  - cbn. lia.
  - cbn [fold_left]. rewrite (IH (acc * 10 + d)), (IH (0 * 10 + d)).
    cbn [length]. rewrite Nat2Z.inj_succ, Z.pow_succ_r by lia. ring.
Qed.

(** On a text of digits the conversion reads every character, and the number
    it builds is the one the text denotes. *)
Lemma read_all_digits (s : string) :
  all_digits s = true ->
  length (read_digits s) = String.length s
  /\ decimal (read_digits s) = unsigned_value s.
Proof.
  induction s as [|c s IH]; [intros _; split; reflexivity|].
  cbn. destruct (digit_of c) as [d|]; [|discriminate].
  intros H. destruct (IH H) as [Hlen Hval]. split.
  - cbn. now rewrite Hlen.
  - unfold decimal. cbn [fold_left]. rewrite decimal_from, Hlen, Hval.
    cbn. lia.
Qed.

Lemma unsigned_value_nonneg (s : string) : 0 <= unsigned_value s.
Proof.
  induction s as [|c s IH]; [reflexivity|]. cbn.
  destruct (digit_of c) as [d|] eqn:Hd; cbn; [|lia].
  apply digit_of_range in Hd.
  assert (0 <= 10 ^ Z.of_nat (String.length s)) by (apply Z.pow_nonneg; lia).
  nia.
Qed.

(** [std::stoul] on a valid unsigned integer. *)
Lemma stoul_unsigned_integer (value : string) :
  is_unsigned_integer value = true ->
  stoul value = if unsigned_value value >? ULONG_MAX then out_of_range
                else Value (unsigned_value value).
Proof.
  unfold is_unsigned_integer. intros H. apply andb_true_iff in H as [Hne Hall].
  destruct (read_all_digits value Hall) as [_ Hval].
  destruct value as [|c rest]; [discriminate|].
  cbn in Hall. destruct (digit_of c) as [d|] eqn:Hd; [|discriminate].
  destruct (digit_not_space_or_sign c d Hd) as (Hspace & Hminus & Hplus).
  unfold stoul. cbn [skip_space]. rewrite Hspace.
  cbn [split_sign]. rewrite Hminus, Hplus.
  rewrite <- Hval. cbn [read_digits]. rewrite Hd. reflexivity.
Qed.

(** C7, as the code has it: at a marked column a value that is not empty
    makes [main] return 3 exactly when no digit follows its leading white
    space and sign, and 4 exactly when the digits there denote a number above
    [ULONG_MAX].  For a valid unsigned integer this means: never 3; 4
    exactly when it is above [ULONG_MAX]; otherwise the slot receives the
    number converted to [ObjectAddress], which is the number itself when it
    fits. *)
Theorem address_of_value bits (R W : gset nat) (objs : Transaction) (k : nat)
    (value : string) :
  value <> EmptyString -> k ∈ R \/ k ∈ W ->
  let step := value_step bits R W objs k value in
  let digits := read_digits (split_sign (skip_space value)).2 in
  (step = inl 3 <-> digits = [])
  /\ (step = inl 4 <-> digits <> [] /\ decimal digits > ULONG_MAX)
  /\ (is_unsigned_integer value = true ->
        step <> inl 3
        /\ (step = inl 4 <-> unsigned_value value > ULONG_MAX)
        /\ (unsigned_value value <= ULONG_MAX ->
              step = inr (<[ k := mkObject true (bool_decide (k ∈ W))
                                    (to_ObjectAddress bits (unsigned_value value)) ]>
                            objs))
        /\ (unsigned_value value < 2 ^ bits ->
              to_ObjectAddress bits (unsigned_value value)
              = unsigned_value value)).
Proof.
  intros Hne Hin step digits.
  assert (Hstep : step = match stoul value with
                         | invalid_argument => inl 3
                         | out_of_range => inl 4
                         | Value v =>
                             inr (<[ k := mkObject true (bool_decide (k ∈ W))
                                            (to_ObjectAddress bits v) ]> objs)
                         end)
    by (apply value_step_parse; assumption).
  split; [|split].
  - rewrite Hstep. unfold stoul. subst digits.
    destruct (split_sign (skip_space value)) as [negative s]. cbn [snd].
    destruct (read_digits s) as [|d ds]; [tauto|].
    destruct (decimal (d :: ds) >? ULONG_MAX); split; discriminate.
  - rewrite Hstep. unfold stoul. subst digits.
    destruct (split_sign (skip_space value)) as [negative s]. cbn [snd].
    destruct (read_digits s) as [|d ds]; [split; [discriminate|tauto]|].
    destruct (Z.gtb_spec (decimal (d :: ds)) ULONG_MAX); split;
      try discriminate; try (intros [_ ?]; lia).
    + intros _. split; [discriminate|lia].
    + reflexivity.
  - intros Hvalid. rewrite Hstep, (stoul_unsigned_integer value Hvalid).
    pose proof (unsigned_value_nonneg value) as Hpos.
    destruct (Z.gtb_spec (unsigned_value value) ULONG_MAX);
      (split; [discriminate|]); (split; [|split]);
      try (split; (discriminate || lia || reflexivity));
      try (intros; lia || reflexivity).
    + intros Hfit. unfold to_ObjectAddress. apply Z.mod_small. lia.
    + intros Hfit. unfold to_ObjectAddress. apply Z.mod_small. lia.
Qed.

Lemma address_of_value_witness :
  value_step 64 {[ 0%nat ]} ∅ (objs_declared Object_unset) 0 "12"
  = inr (<[ 0%nat := mkObject true (bool_decide (0%nat ∈ (∅ : gset nat)))
                       (to_ObjectAddress 64 (unsigned_value "12")) ]>
           (objs_declared Object_unset)).
Proof.
  destruct (address_of_value 64 {[ 0%nat ]} ∅ (objs_declared Object_unset)
              0 "12") as (_ & _ & Hvalid).
  - discriminate.
  - left. set_solver.
  - destruct (Hvalid eq_refl) as (_ & _ & Hvalue & _).
    apply Hvalue. vm_compute. discriminate.
Defined.

(** C7, as the specification has it, fails: ["12abc"] is not a valid
    unsigned integer, and at a marked column [main] does not return 3 for
    it; the slot receives the address 12. *)
Lemma value_12abc_is_taken :
  is_unsigned_integer "12abc" = false
  /\ value_step 64 {[ 0%nat ]} ∅ (objs_declared Object_unset) 0 "12abc"
     = inr (<[ 0%nat := mkObject true false 12 ]>
              (objs_declared Object_unset)).
Proof. split; reflexivity. Qed.

(** ** Loaded transactions *)

Lemma read_not_write_column (labels : list string) (k : nat) :
  read_column labels k -> ~ write_column labels k.
Proof.
  intros (l & Hl & Hr) (l' & Hl' & Hw).
  rewrite Hl in Hl'. injection Hl' as <-.
  apply prefix_Written_not_Read in Hw. congruence.
Qed.

(** A file with a header whose lines are all parsed is loaded: one
    transaction for each line, in the order of the lines. *)
Lemma load_file_lines bits init files (path source header content : string)
    (R W : gset nat) (tests : list Transaction) :
  files path = Some source ->
  getline newline source = Some (header, content) ->
  header_loop 0 (getlines comma header) ∅ ∅ = (R, W) ->
  (forall line, line ∈ getlines newline content ->
                exists objs, parse_line bits init R W line = inr objs) ->
  exists new,
    load_file bits init files path tests = inr (tests ++ new)
    /\ Forall2 (fun line objs => parse_line bits init R W line = inr objs)
               (getlines newline content) new.
Proof.
  intros Hfile Hheader Hsets Hlines.
  unfold load_file. rewrite Hfile, Hheader, Hsets, lines_loop_tests.
  destruct (lines_loop bits init R W (getlines newline content) [])
    as [code|new] eqn:Hloop.
  - apply lines_loop_inl in Hloop as (good & line & more & Heq & _ & Hline).
    destruct (Hlines line) as [objs Hobjs]; [|congruence].
    rewrite Heq. apply elem_of_app. right. left.
  - exists new. split; [reflexivity|]. now apply lines_loop_inr.
Qed.

(** A file that opens and whose marked, non-empty values among the first
    [numObjects] columns are all converted by [std::stoul], to numbers that
    fit [ObjectAddress]: one transaction for each content line, and the
    slots that are set hold what [std::stoul] returned. *)
Lemma load_file_converted bits init files
    (path source header content : string) (tests : list Transaction) :
  files path = Some source ->
  getline newline source = Some (header, content) ->
  let labels := getlines comma header in
  let lines := getlines newline content in
  (forall line k value,
     line ∈ lines -> (k < numObjects)%nat ->
     getlines comma line !! k = Some value -> value <> EmptyString ->
     read_column labels k \/ write_column labels k ->
     exists v, stoul value = Value v /\ 0 <= v < 2 ^ bits) ->
  exists new,
    load_file bits init files path tests = inr (tests ++ new)
    /\ length new = length lines
    /\ forall n line, lines !! n = Some line ->
       exists objs,
         new !! n = Some objs
         /\ length objs = numObjects
         /\ forall k, (k < numObjects)%nat ->
            match getlines comma line !! k with
            | Some value =>
                (value <> EmptyString -> write_column labels k ->
                 exists v, stoul value = Value v
                           /\ objs !! k = Some (mkObject true true v))
                /\ (value <> EmptyString -> read_column labels k ->
                    exists v, stoul value = Value v
                              /\ objs !! k = Some (mkObject true false v))
                /\ (value = EmptyString
                    \/ (~ read_column labels k /\ ~ write_column labels k) ->
                    objs !! k = Some init)
            | None => objs !! k = Some init
            end.
Proof.
  intros Hfile Hheader labels lines Hvalues.
  destruct (header_loop 0 labels ∅ ∅) as [R W] eqn:Hsets.
  pose proof (header_loop_columns labels R W Hsets) as Hcols.
  assert (Hmarked : forall k, k ∈ R \/ k ∈ W ->
                              read_column labels k \/ write_column labels k).
  { intros k [H|H]; [left|right]; now apply Hcols. }
  destruct (load_file_lines bits init files path source header content R W
              tests Hfile Hheader Hsets) as (new & Hload & Hnew).
  { intros line Hline. apply parse_line_accepted.
    intros k value Hk Hv Hne Hin.
    destruct (Hvalues line k value Hline Hk Hv Hne (Hmarked k Hin))
      as (v & Hstoul & _).
    eauto. }
  exists new. split; [exact Hload|].
  split; [symmetry; eapply Forall2_length, Hnew|].
  intros n line Hline.
  destruct (Forall2_lookup_l _ _ _ _ _ Hnew Hline) as (objs & Hobjs & Hparse).
  exists objs. split; [exact Hobjs|].
  apply parse_line_slots in Hparse as (Hlen & Hset & Hunset).
  split; [exact Hlen|].
  intros k Hk.
  assert (Hin : line ∈ lines) by (eapply list_elem_of_lookup_2, Hline).
  destruct (getlines comma line !! k) as [value|] eqn:Hv;
    [|apply Hunset; auto].
  split; [|split].
  - intros Hne Hw.
    assert (HkW : k ∈ W) by now apply Hcols.
    destruct (Hset k value Hk Hv Hne (or_intror HkW))
      as (v & Hstoul & Hslot).
    destruct (Hvalues line k value Hin Hk Hv Hne (or_intror Hw))
      as (v' & Hstoul' & Hrange).
    exists v. split; [exact Hstoul|].
    rewrite Hslot, (bool_decide_eq_true_2 _ HkW).
    unfold to_ObjectAddress. rewrite Z.mod_small; [reflexivity|].
    congruence.
  - intros Hne Hr.
    assert (HkR : k ∈ R) by now apply Hcols.
    assert (HkW : k ∉ W).
    { intros HkW. apply Hcols in HkW.
      now apply (read_not_write_column labels k). }
    destruct (Hset k value Hk Hv Hne (or_introl HkR))
      as (v & Hstoul & Hslot).
    destruct (Hvalues line k value Hin Hk Hv Hne (or_introl Hr))
      as (v' & Hstoul' & Hrange).
    exists v. split; [exact Hstoul|].
    rewrite Hslot, (bool_decide_eq_false_2 _ HkW).
    unfold to_ObjectAddress. rewrite Z.mod_small; [reflexivity|].
    congruence.
  - intros Hcase. apply Hunset; [exact Hk|].
    destruct Hcase as [->|[HnR HnW]]; [auto|].
    right; right. split; intros H; [apply HnR|apply HnW]; now apply Hcols.
Qed.

(** C2: a file that opens and whose marked, non-empty values among the
    first [numObjects] columns are all unsigned integers in range (of
    [unsigned long] and of [ObjectAddress]) gives one transaction for each
    content line, in the order of the file; on each line a slot [k] below
    [numObjects] is set, as a valid write or a valid read of the number that
    its value denotes, exactly when column [k] is marked and the value is
    not empty.  Columns from [numObjects] on play no part. *)
Theorem load_file_transactions bits init files
    (path source header content : string) (tests : list Transaction) :
  files path = Some source ->
  getline newline source = Some (header, content) ->
  let labels := getlines comma header in
  let lines := getlines newline content in
  (forall line k value,
     line ∈ lines -> (k < numObjects)%nat ->
     getlines comma line !! k = Some value -> value <> EmptyString ->
     read_column labels k \/ write_column labels k ->
     is_unsigned_integer value = true
     /\ unsigned_value value <= ULONG_MAX
     /\ unsigned_value value < 2 ^ bits) ->
  exists new,
    load_file bits init files path tests = inr (tests ++ new)
    /\ length new = length lines
    /\ forall n line, lines !! n = Some line ->
       exists objs,
         new !! n = Some objs
         /\ length objs = numObjects
         /\ forall k, (k < numObjects)%nat ->
            match getlines comma line !! k with
            | Some value =>
                (value <> EmptyString -> write_column labels k ->
                 objs !! k
                 = Some (mkObject true true (unsigned_value value)))
                /\ (value <> EmptyString -> read_column labels k ->
                    objs !! k
                    = Some (mkObject true false (unsigned_value value)))
                /\ (value = EmptyString
                    \/ (~ read_column labels k /\ ~ write_column labels k) ->
                    objs !! k = Some init)
            | None => objs !! k = Some init
            end.
Proof.
  intros Hfile Hheader labels lines Hvalues.
  assert (Hstoul : forall value,
            is_unsigned_integer value = true ->
            unsigned_value value <= ULONG_MAX ->
            stoul value = Value (unsigned_value value)).
  { intros value Hvalid Hmax. rewrite (stoul_unsigned_integer value Hvalid).
    destruct (Z.gtb_spec (unsigned_value value) ULONG_MAX); [lia|reflexivity]. }
  destruct (load_file_converted bits init files path source header content
              tests Hfile Hheader) as (new & Hload & Hlength & Hlines).
  { intros line k value Hline Hk Hv Hne Hmark.
    destruct (Hvalues line k value Hline Hk Hv Hne Hmark)
      as (Hvalid & Hmax & Hfit).
    exists (unsigned_value value). split; [now apply Hstoul|].
    pose proof (unsigned_value_nonneg value). lia. }
  exists new. split; [exact Hload|]. split; [exact Hlength|].
  intros n line Hline.
  destruct (Hlines n line Hline) as (objs & Hobjs & Hlen & Hslots).
  exists objs. split; [exact Hobjs|]. split; [exact Hlen|].
  intros k Hk. specialize (Hslots k Hk).
  assert (Hin : line ∈ lines) by (eapply list_elem_of_lookup_2, Hline).
  destruct (getlines comma line !! k) as [value|] eqn:Hv; [|exact Hslots].
  destruct Hslots as (Hwrite & Hread & Hunset).
  split; [|split; [|exact Hunset]].
  - intros Hne Hw.
    destruct (Hvalues line k value Hin Hk Hv Hne (or_intror Hw))
      as (Hvalid & Hmax & _).
    destruct (Hwrite Hne Hw) as (v & Hv' & ->).
    rewrite (Hstoul value Hvalid Hmax) in Hv'. now injection Hv' as <-.
  - intros Hne Hr.
    destruct (Hvalues line k value Hin Hk Hv Hne (or_introl Hr))
      as (Hvalid & Hmax & _).
    destruct (Hread Hne Hr) as (v & Hv' & ->).
    rewrite (Hstoul value Hvalid Hmax) in Hv'. now injection Hv' as <-.
Qed.

Lemma load_file_transactions_witness :
  exists new,
    load_file 64 Object_unset example_files "tests.csv" [] = inr ([] ++ new)
    /\ length new = 2%nat
    /\ exists objs,
         new !! 0%nat = Some objs
         /\ objs !! 0%nat = Some (mkObject true false 5)
         /\ objs !! 1%nat = Some Object_unset
         /\ objs !! 2%nat = Some (mkObject true true 7).
Proof.
  destruct (load_file_transactions 64 Object_unset example_files "tests.csv"
              (unlines ["Read object 1,Name,Written object 1";
                        "5,abc,7"; ",,12"]%string)
              "Read object 1,Name,Written object 1"
              (unlines ["5,abc,7"; ",,12"]%string) [])
    as (new & Hload & Hlength & Hlines).
  - reflexivity.
  - reflexivity.
  - intros line k value Hline Hk Hv Hne Hmark.
    apply list_elem_of_In in Hline. cbn in Hline.
    destruct Hline as [<-|[<-|[]]];
      (destruct k as [|[|[|k]]]; cbn in Hv; [..|discriminate Hv]);
      injection Hv as <-;
      try (exfalso; apply Hne; reflexivity);
      try (split; [reflexivity
                  |split; vm_compute; first [reflexivity | discriminate]]).
    exfalso. destruct Hmark as [(l & Hl & Hp)|(l & Hl & Hp)];
      cbn in Hl; injection Hl as <-; vm_compute in Hp; discriminate.
  - exists new. split; [exact Hload|]. split; [exact Hlength|].
    destruct (Hlines 0%nat "5,abc,7"%string eq_refl)
      as (objs & Hobjs & _ & Hslots).
    exists objs. split; [exact Hobjs|].
    pose proof (Hslots 0%nat ltac:(unfold numObjects; lia)) as H0.
    pose proof (Hslots 1%nat ltac:(unfold numObjects; lia)) as H1.
    pose proof (Hslots 2%nat ltac:(unfold numObjects; lia)) as H2.
    change (getlines comma "5,abc,7" !! 0%nat) with (Some "5"%string) in H0.
    change (getlines comma "5,abc,7" !! 1%nat) with (Some "abc"%string) in H1.
    change (getlines comma "5,abc,7" !! 2%nat) with (Some "7"%string) in H2.
    destruct H0 as (_ & H0 & _), H1 as (_ & _ & H1), H2 as (H2 & _ & _).
    split; [|split].
    + apply H0; [discriminate|].
      exists "Read object 1"%string. split; reflexivity.
    + apply H1. right.
      split; intros (l & Hl & Hp); cbn in Hl; injection Hl as <-;
        vm_compute in Hp; discriminate.
    + apply H2; [discriminate|].
      exists "Written object 1"%string. split; reflexivity.
Defined.

Lemma load_file_inr bits init files (path : string)
    (tests tests' : list Transaction) :
  load_file bits init files path tests = inr tests' ->
  exists source header content R W new,
    files path = Some source
    /\ getline newline source = Some (header, content)
    /\ header_loop 0 (getlines comma header) ∅ ∅ = (R, W)
    /\ tests' = tests ++ new
    /\ Forall2 (fun line objs => parse_line bits init R W line = inr objs)
               (getlines newline content) new.
Proof.
  unfold load_file.
  destruct (files path) as [source|] eqn:Hfile; [|discriminate].
  destruct (getline newline source) as [[header content]|] eqn:Hheader;
    [|discriminate].
  destruct (header_loop 0 (getlines comma header) ∅ ∅) as [R W] eqn:Hsets.
  rewrite lines_loop_tests.
  destruct (lines_loop bits init R W (getlines newline content) [])
    as [code|new] eqn:Hloop; [discriminate|].
  intros [= <-]. exists source, header, content, R, W, new.
  repeat split; try reflexivity; try assumption. now apply lines_loop_inr.
Qed.

(** C5: the loader assigns nothing to the slot of an empty value, of a
    column that is not marked or of a column that the line does not have.
    The array is declared at line 120 without an initialiser, so in the
    transaction such a slot holds what the array held at its declaration: it
    is invalid only if that was, and valid if that was valid. *)
Theorem unpopulated_slots_unassigned bits init files
    (path source header content : string) (tests new : list Transaction) :
  files path = Some source ->
  getline newline source = Some (header, content) ->
  load_file bits init files path tests = inr (tests ++ new) ->
  let labels := getlines comma header in
  let lines := getlines newline content in
  let unmarked k := ~ read_column labels k /\ ~ write_column labels k in
  forall n line objs k,
    lines !! n = Some line -> new !! n = Some objs ->
    (k < numObjects)%nat ->
    getlines comma line !! k = None
    \/ getlines comma line !! k = Some EmptyString
    \/ unmarked k ->
    objs !! k = Some init
    /\ (valid init = true -> exists o, objs !! k = Some o /\ valid o = true).
Proof.
  intros Hfile Hheader Hload labels lines unmarked n line objs k
    Hline Hobjs Hk Hcase.
  destruct (header_loop 0 labels ∅ ∅) as [R W] eqn:Hsets.
  pose proof (header_loop_columns labels R W Hsets) as Hcols.
  apply load_file_inr in Hload
    as (source' & header' & content' & R' & W' & new' & Hfile' & Hheader'
        & Hsets' & Hnew & Hparse).
  rewrite Hfile in Hfile'. injection Hfile' as <-.
  rewrite Hheader in Hheader'. injection Hheader' as <- <-.
  fold labels in Hsets'. rewrite Hsets in Hsets'. injection Hsets' as <- <-.
  apply app_inv_head in Hnew as <-.
  destruct (Forall2_lookup_l _ _ _ _ _ Hparse Hline) as (objs' & Hobjs' & Hp).
  fold lines in Hobjs'. rewrite Hobjs in Hobjs'. injection Hobjs' as <-.
  apply parse_line_slots in Hp as (_ & _ & Hunset).
  assert (Hslot : objs !! k = Some init).
  { apply Hunset; [exact Hk|].
    destruct Hcase as [?|[?|[HnR HnW]]]; [auto..|].
    right; right. split; intros H; [apply HnR|apply HnW]; now apply Hcols. }
  split; [exact Hslot|]. intros Hvalid. eauto.
Qed.

Lemma unpopulated_slots_unassigned_witness :
  exists objs o,
    calls (main 64 Object_stale example_files ["prog"; "tests.csv"]%string)
      !! 1%nat = Some (1, objs)
    /\ getlines comma ",,12" !! 0%nat = Some EmptyString
    /\ objs !! 0%nat = Some o
    /\ valid o = true.
Proof.
  exists (<[ 2%nat := mkObject true true 12 ]> (objs_declared Object_stale)),
         Object_stale.
  split; [vm_compute; reflexivity|]. split; [reflexivity|].
  split; [|reflexivity].
  apply (unpopulated_slots_unassigned 64 Object_stale example_files
           "tests.csv"
           (unlines ["Read object 1,Name,Written object 1";
                     "5,abc,7"; ",,12"]%string)
           "Read object 1,Name,Written object 1"
           (unlines ["5,abc,7"; ",,12"]%string) []
           [ <[ 2%nat := mkObject true true 7 ]>
               (<[ 0%nat := mkObject true false 5 ]>
                  (objs_declared Object_stale));
             <[ 2%nat := mkObject true true 12 ]>
               (objs_declared Object_stale) ]
           eq_refl eq_refl eq_refl 1%nat ",,12"%string _ 0%nat
           eq_refl eq_refl).
  - unfold numObjects. lia.
  - right. left. reflexivity.
Defined.

(** ** Columns that are not marked *)

Lemma values_loop_insert_unmarked bits (R W : gset nat) (value : string)
    (values : list string) :
  forall (i n : nat) (objs : Transaction),
  (i + n)%nat ∉ R -> (i + n)%nat ∉ W ->
  values_loop bits R W i (<[ n := value ]> values) objs
  = values_loop bits R W i values objs.
Proof.
  induction values as [|v rest IH]; intros i n objs HR HW; [reflexivity|].
  destruct n as [|n].
  - change (<[ 0%nat := value ]> (v :: rest)) with (value :: rest).
    cbn [values_loop]. rewrite Nat.add_0_r in HR, HW.
    rewrite !(value_step_skip bits R W objs i) by auto. reflexivity.
  - change (<[ S n := value ]> (v :: rest)) with (v :: <[ n := value ]> rest).
    cbn [values_loop]. destruct (i <? numObjects)%nat; [|reflexivity].
    destruct (value_step bits R W objs i v) as [code|objs']; [reflexivity|].
    cbn. apply IH; now rewrite Nat.add_succ_l, <- Nat.add_succ_r.
Qed.

(** C10: a value in a column that is neither a read nor a write column is
    skipped, whatever its text: no address is parsed, so [main] cannot
    return 3 or 4 because of it (the line fares the same with any other text
    there), and its slot is not assigned. *)
Theorem unmarked_value_skipped bits (R W : gset nat) (values : list string)
    (objs : Transaction) (k : nat) (value : string) :
  k ∉ R -> k ∉ W ->
  value_step bits R W objs k value = inr objs
  /\ values_loop bits R W 0 (<[ k := value ]> values) objs
     = values_loop bits R W 0 values objs
  /\ forall objs', values_loop bits R W 0 values objs = inr objs' ->
                   objs' !! k = objs !! k.
Proof.
  intros HR HW. split; [apply value_step_skip; auto|].
  split; [now apply values_loop_insert_unmarked|].
  intros objs' Hloop.
  apply values_loop_slots in Hloop as (_ & Hkeep & Hread).
  destruct (values !! k) as [v|] eqn:Hv.
  - destruct (le_lt_dec numObjects k) as [Hk|Hk]; [apply Hkeep; auto|].
    destruct (Hread k v) as (o & Ho & Hslot);
      [lia|now rewrite Nat.sub_0_r|].
    rewrite value_step_skip in Ho by auto. injection Ho as <-. exact Hslot.
  - apply Hkeep. right; right. now rewrite Nat.sub_0_r.
Qed.

Lemma unmarked_value_skipped_witness :
  stoul "abc" = invalid_argument
  /\ value_step 64 {[ 0%nat ]} ∅ (objs_declared Object_unset) 1 "abc"
     = inr (objs_declared Object_unset)
  /\ values_loop 64 {[ 0%nat ]} ∅ 0 (<[ 1%nat := "abc"%string ]> ["5"; "6"]%string)
                  (objs_declared Object_unset)
     = values_loop 64 {[ 0%nat ]} ∅ 0 ["5"; "6"]%string
                   (objs_declared Object_unset).
Proof.
  split; [reflexivity|].
  destruct (unmarked_value_skipped 64 {[ 0%nat ]} ∅ ["5"; "6"]%string
              (objs_declared Object_unset) 1 "abc")
    as (Hstep & Hloop & _).
  - set_solver.
  - set_solver.
  - split; [exact Hstep|exact Hloop].
Defined.

(** * Further properties of the code *)

(** ** Splitting text *)

Lemma getlines_nil (delim : ascii) (s : string) :
  getlines delim s = [] <-> s = EmptyString.
Proof.
  rewrite getlines_unfold. rewrite <- (getline_None delim s).
  destruct (getline delim s) as [[t rest]|]; split; intros H;
    reflexivity || discriminate.
Qed.

Lemma append_empty (s : string) : (EmptyString ++ s)%string = s.
Proof. reflexivity. Qed.

Lemma append_String (c : ascii) (t s : string) :
  (String c t ++ s)%string = String c (t ++ s).
Proof. reflexivity. Qed.

(** A text without the delimiter, followed by the delimiter, is extracted
    whole. *)
Lemma getline_token (delim : ascii) (t rest : string) :
  has_char delim t = false ->
  getline delim (t ++ String delim rest) = Some (t, rest).
Proof.
  induction t as [|c t IH]; intros H.
  - rewrite append_empty. cbn [getline]. now rewrite Ascii.eqb_refl.
  - cbn [has_char] in H. apply orb_false_iff in H as [Hc Ht].
    rewrite append_String. cbn [getline]. rewrite Hc, (IH Ht). reflexivity.
Qed.

Lemma getlines_token (delim : ascii) (t rest : string) :
  has_char delim t = false ->
  getlines delim (t ++ String delim rest) = t :: getlines delim rest.
Proof.
  intros H. now rewrite getlines_unfold, getline_token.
Qed.

Lemma getlines_last_token (delim : ascii) (t : string) :
  has_char delim t = false -> t <> EmptyString ->
  getlines delim t = [t].
Proof.
  induction t as [|c t IH]; [contradiction|].
  cbn [getlines has_char]. intros H _.
  apply orb_false_iff in H as [Hc Ht]. rewrite Hc.
  destruct t as [|c' t]; [reflexivity|].
  rewrite IH by (assumption || discriminate). reflexivity.
Qed.

(** X1: a text made of lines that each end with a newline is read back as
    exactly these lines: one iteration of the loop over the content for each
    of them, empty lines included. *)
Theorem getlines_unlines (lines : list string) :
  Forall (fun line => has_char newline line = false) lines ->
  getlines newline (unlines lines) = lines.
Proof.
  induction 1 as [|line lines Hline _ IH]; [reflexivity|].
  cbn [unlines]. rewrite getlines_token by assumption. now rewrite IH.
Qed.

Lemma getlines_unlines_witness :
  getlines newline (unlines ["5,abc,7"; ""; ",,12"]%string)
  = ["5,abc,7"; ""; ",,12"]%string.
Proof.
  apply getlines_unlines. repeat constructor.
Defined.

(** X2: texts without the delimiter that are joined by it are read back as
    they were, except that an empty last text is dropped: a last line needs
    no newline, and a line that ends with a comma has no value after it. *)
Theorem getlines_join (delim : ascii) (texts : list string) :
  Forall (fun t => has_char delim t = false) texts ->
  getlines delim (join delim texts)
  = if decide (last texts = Some EmptyString) then removelast texts
    else texts.
Proof.
  induction 1 as [|t texts Ht Htexts IH]; [reflexivity|].
  destruct texts as [|t' texts].
  - cbn [join]. destruct t as [|c t].
    + reflexivity.
    + rewrite getlines_last_token by (assumption || discriminate).
      destruct (decide (last [String c t] = Some EmptyString)) as [H|_];
        [discriminate H|reflexivity].
  - change (join delim (t :: t' :: texts))
      with (t ++ String delim (join delim (t' :: texts)))%string.
    rewrite getlines_token, IH by assumption.
    change (last (t :: t' :: texts)) with (last (t' :: texts)).
    destruct (decide (last (t' :: texts) = Some EmptyString)); reflexivity.
Qed.

Lemma getlines_join_witness :
  getlines comma (join comma ["5"; ""; "7"; ""]%string)
  = ["5"; ""; "7"]%string.
Proof.
  apply (getlines_join comma ["5"; ""; "7"; ""]%string).
  repeat constructor.
Defined.

Lemma join_cons (delim : ascii) (c : ascii) (t : string) (ts : list string) :
  join delim (String c t :: ts) = String c (join delim (t :: ts)).
Proof. destruct ts; reflexivity. Qed.

(** X3: the texts extracted never contain the delimiter, and joined again
    they give the text that was read, up to one delimiter at its end. *)
Theorem join_getlines (delim : ascii) (s : string) :
  Forall (fun t => has_char delim t = false) (getlines delim s)
  /\ (s = join delim (getlines delim s)
      \/ s = (join delim (getlines delim s) ++ String delim EmptyString)%string).
Proof.
  induction s as [|c s [IHno IHjoin]]; [split; [constructor|now left]|].
  cbn [getlines]. destruct (Ascii.eqb c delim) eqn:Hc.
  - apply Ascii.eqb_eq in Hc as ->. split; [now constructor|].
    destruct (getlines delim s) as [|t ts] eqn:Hs.
    + apply getlines_nil in Hs as ->. now right.
    + change (join delim (EmptyString :: t :: ts))
        with (String delim (join delim (t :: ts))).
      destruct IHjoin as [Hj|Hj]; [left|right];
        rewrite ?append_String; f_equal; exact Hj.
  - destruct (getlines delim s) as [|t ts] eqn:Hs.
    + apply getlines_nil in Hs as ->.
      split; [|now left].
      constructor; [|constructor]. cbn. now rewrite Hc.
    + split.
      * inversion IHno as [|? ? Ht Hts]; subst.
        constructor; [|assumption]. cbn. now rewrite Hc, Ht.
      * rewrite join_cons.
        destruct IHjoin as [Hj|Hj]; [left|right];
          rewrite ?append_String; f_equal; exact Hj.
Qed.

(** ** The header and the values of a line *)

(** X4: no column is both a read and a write column, and every column
    recorded is a column of the header. *)
Theorem header_sets_disjoint (labels : list string) (R W : gset nat) :
  header_loop 0 labels ∅ ∅ = (R, W) ->
  (forall k, ~ (k ∈ R /\ k ∈ W))
  /\ (forall k, k ∈ R \/ k ∈ W -> (k < length labels)%nat).
Proof.
  intros H. pose proof (header_loop_columns labels R W H) as Hcols. split.
  - intros k [HR HW]. apply Hcols in HR. apply Hcols in HW.
    now apply (read_not_write_column labels k).
  - intros k [Hk|Hk]; apply Hcols in Hk; destruct Hk as (l & Hl & _);
      eapply lookup_lt_Some, Hl.
Qed.

Lemma header_sets_disjoint_witness :
  (forall k, ~ (k ∈ ({[ 0%nat ]} ∪ ∅ : gset nat)
               /\ k ∈ ({[ 2%nat ]} ∪ ∅ : gset nat)))
  /\ (forall k, k ∈ ({[ 0%nat ]} ∪ ∅ : gset nat)
                \/ k ∈ ({[ 2%nat ]} ∪ ∅ : gset nat) ->
                (k < 3)%nat).
Proof.
  apply (header_sets_disjoint
           (getlines comma "Read object 1,Name,Written object 1")).
  reflexivity.
Defined.

Lemma values_loop_take bits (R W : gset nat) (values : list string) :
  forall (i : nat) (objs : Transaction),
  values_loop bits R W i values objs
  = values_loop bits R W i (take (numObjects - i) values) objs.
Proof.
  induction values as [|value rest IH]; intros i objs.
  - now rewrite take_nil.
  - destruct (le_lt_dec numObjects i) as [Hfull|Hi].
    + now rewrite !values_loop_full by assumption.
    + replace (numObjects - i)%nat with (S (numObjects - S i)) by lia.
      rewrite firstn_cons, !values_loop_cons by assumption.
      destruct (value_step bits R W objs i value) as [code|objs'];
        [reflexivity|apply IH].
Qed.

(** X5: only the first [numObjects] values of a line are looked at: what
    follows them changes neither the slots nor whether [main] returns. *)
Theorem values_past_numObjects bits (R W : gset nat)
    (values extra : list string) (objs : Transaction) :
  (numObjects <= length values)%nat ->
  values_loop bits R W 0 (values ++ extra) objs
  = values_loop bits R W 0 values objs.
Proof.
  intros Hlen.
  rewrite (values_loop_take bits R W (values ++ extra)),
          (values_loop_take bits R W values).
  now rewrite Nat.sub_0_r, take_app_le.
Qed.

Lemma values_past_numObjects_witness :
  values_loop 64 (list_to_set (seq 0 20)) ∅ 0
    (replicate 16 "1"%string ++ ["abc"; "99999999999999999999"]%string)
    (objs_declared Object_unset)
  = values_loop 64 (list_to_set (seq 0 20)) ∅ 0
      (replicate 16 "1"%string) (objs_declared Object_unset).
Proof.
  apply (values_past_numObjects 64 (list_to_set (seq 0 20)) ∅
           (replicate 16 "1"%string)).
  vm_compute. lia.
Defined.

(** X6: a line is parsed exactly when every value among its first
    [numObjects] that is not empty and stands in a marked column is
    converted by [std::stoul]; otherwise [main] returns. *)
Theorem parse_line_iff bits init (R W : gset nat) (line : string) :
  (exists objs, parse_line bits init R W line = inr objs)
  <-> forall k value, (k < numObjects)%nat ->
                      getlines comma line !! k = Some value ->
                      accepted R W k value.
Proof.
  split; [|apply parse_line_accepted].
  intros [objs H] k value Hk Hv. unfold parse_line in H.
  apply values_loop_slots in H as (_ & _ & Hread).
  destruct (Hread k value) as (o & Ho & _); [lia|now rewrite Nat.sub_0_r|].
  eapply value_step_accepted. eauto.
Qed.

(** ** Texts that [std::stoul] takes or refuses *)

Lemma skip_space_all_space (s : string) :
  all_space s = true -> skip_space s = EmptyString.
Proof.
  induction s as [|c s IH]; [reflexivity|]. cbn. intros H.
  apply andb_true_iff in H as [Hc Hs]. rewrite Hc. now apply IH.
Qed.

Lemma skip_space_append (ws s : string) :
  all_space ws = true -> skip_space (ws ++ s) = skip_space s.
Proof.
  induction ws as [|c ws IH]; [reflexivity|]. cbn [all_space]. intros H.
  apply andb_true_iff in H as [Hc Hs].
  rewrite append_String. cbn [skip_space]. rewrite Hc. now apply IH.
Qed.

Lemma read_digits_append (s rest : string) :
  all_digits s = true ->
  read_digits (s ++ rest) = read_digits s ++ read_digits rest.
Proof.
  induction s as [|c s IH]; [reflexivity|]. cbn [all_digits]. intros H.
  rewrite append_String. cbn [read_digits].
  destruct (digit_of c); [|discriminate]. cbn. now rewrite IH.
Qed.

Lemma append_not_empty (s t : string) :
  s <> EmptyString \/ t <> EmptyString -> (s ++ t)%string <> EmptyString.
Proof.
  destruct s; [rewrite append_empty; tauto|].
  rewrite append_String. discriminate.
Qed.

(** X7: a value made of white space only is not an empty value: at a marked
    column it makes [main] return 3. *)
Theorem blank_value_returns_3 bits (R W : gset nat) (objs : Transaction)
    (k : nat) (value : string) :
  value <> EmptyString -> all_space value = true -> k ∈ R \/ k ∈ W ->
  value_step bits R W objs k value = inl 3.
Proof.
  intros Hne Hspace Hin. rewrite value_step_parse by assumption.
  unfold stoul. now rewrite skip_space_all_space.
Qed.

Lemma blank_value_returns_3_witness :
  value_step 64 {[ 0%nat ]} ∅ (objs_declared Object_unset) 0 "  " = inl 3.
Proof.
  apply blank_value_returns_3.
  - discriminate.
  - reflexivity.
  - left. set_solver.
Defined.

(** On a text that starts with a digit, the conversion starts at once. *)
Lemma stoul_digit_first (c : ascii) (d : Z) (s : string) :
  digit_of c = Some d ->
  stoul (String c s)
  = let v := decimal (read_digits (String c s)) in
    if v >? ULONG_MAX then out_of_range else Value v.
Proof.
  intros Hd.
  destruct (digit_not_space_or_sign c d Hd) as (Hspace & Hminus & Hplus).
  unfold stoul. cbn [skip_space]. rewrite Hspace.
  cbn [split_sign]. rewrite Hminus, Hplus.
  cbn [read_digits]. rewrite Hd. reflexivity.
Qed.

Lemma stoul_minus (digits : string) :
  is_unsigned_integer digits = true ->
  stoul (String "-" digits)
  = if unsigned_value digits >? ULONG_MAX then out_of_range
    else Value ((- unsigned_value digits) mod 2 ^ 64).
Proof.
  unfold is_unsigned_integer. intros H. apply andb_true_iff in H as [Hne Hall].
  destruct (read_all_digits digits Hall) as [_ Hval].
  destruct digits as [|c rest]; [discriminate|].
  pose proof Hall as Hall'. cbn in Hall'.
  destruct (digit_of c) as [d|] eqn:Hd; [|discriminate].
  unfold stoul. cbn [skip_space].
  replace (isspace "-") with false by reflexivity.
  cbn [split_sign]. rewrite Ascii.eqb_refl.
  rewrite <- Hval. cbn [read_digits]. rewrite Hd. reflexivity.
Qed.

(** X8: a minus sign in front of an unsigned integer up to [ULONG_MAX] is
    accepted: the slot receives the number negated as an [unsigned long]. *)
Theorem negative_value_wraps bits (R W : gset nat) (objs : Transaction)
    (k : nat) (digits : string) :
  is_unsigned_integer digits = true ->
  unsigned_value digits <= ULONG_MAX ->
  k ∈ R \/ k ∈ W ->
  value_step bits R W objs k (String "-" digits)
  = inr (<[ k := mkObject true (bool_decide (k ∈ W))
                   (to_ObjectAddress bits
                      ((- unsigned_value digits) mod 2 ^ 64)) ]> objs).
Proof.
  intros Hvalid Hmax Hin.
  rewrite value_step_parse by (discriminate || assumption).
  rewrite (stoul_minus digits Hvalid).
  destruct (Z.gtb_spec (unsigned_value digits) ULONG_MAX); [lia|reflexivity].
Qed.

Lemma negative_value_wraps_witness :
  value_step 64 {[ 0%nat ]} ∅ (objs_declared Object_unset) 0 "-1"
  = inr (<[ 0%nat := mkObject true false 18446744073709551615 ]>
           (objs_declared Object_unset)).
Proof.
  rewrite (negative_value_wraps 64 {[ 0%nat ]} ∅ (objs_declared Object_unset)
             0 "1").
  - reflexivity.
  - reflexivity.
  - vm_compute. discriminate.
  - left. set_solver.
Defined.

(** X9: what follows the digits of a value is not looked at: an unsigned
    integer followed by any text that does not start with a digit is taken
    as the unsigned integer alone. *)
Theorem text_after_digits_ignored bits (R W : gset nat) (objs : Transaction)
    (k : nat) (digits rest : string) :
  is_unsigned_integer digits = true ->
  read_digits rest = [] ->
  k ∈ R \/ k ∈ W ->
  value_step bits R W objs k (digits ++ rest)
  = value_step bits R W objs k digits.
Proof.
  intros Hvalid Hrest Hin.
  assert (Hne : digits <> EmptyString) by (destruct digits; discriminate).
  rewrite !value_step_parse
    by (assumption || (apply append_not_empty; now left)).
  assert (Hstoul : stoul (digits ++ rest) = stoul digits); [|now rewrite Hstoul].
  unfold is_unsigned_integer in Hvalid.
  apply andb_true_iff in Hvalid as [_ Hall].
  destruct digits as [|c ds]; [contradiction|].
  pose proof Hall as Hall'. cbn in Hall'.
  destruct (digit_of c) as [d|] eqn:Hd; [|discriminate].
  destruct (digit_not_space_or_sign c d Hd) as (Hspace & Hminus & Hplus).
  rewrite append_String.
  rewrite (stoul_digit_first c d _ Hd), (stoul_digit_first c d _ Hd).
  rewrite <- append_String.
  rewrite (read_digits_append (String c ds) rest Hall), Hrest.
  now rewrite app_nil_r.
Qed.

Lemma text_after_digits_ignored_witness :
  value_step 64 {[ 0%nat ]} ∅ (objs_declared Object_unset) 0 ("12" ++ " apples")
  = value_step 64 {[ 0%nat ]} ∅ (objs_declared Object_unset) 0 "12".
Proof.
  apply text_after_digits_ignored.
  - reflexivity.
  - reflexivity.
  - left. set_solver.
Defined.

(** X10: white space in front of a value that is not empty is skipped. *)
Theorem leading_space_skipped bits (R W : gset nat) (objs : Transaction)
    (k : nat) (space value : string) :
  all_space space = true -> value <> EmptyString ->
  value_step bits R W objs k (space ++ value)
  = value_step bits R W objs k value.
Proof.
  intros Hspace Hne.
  destruct (value_step_cases R W k value) as [[->|Hskip]|[_ Hin]].
  - contradiction.
  - now rewrite !value_step_skip by auto.
  - rewrite !value_step_parse
      by (assumption || (apply append_not_empty; now right)).
    unfold stoul. now rewrite skip_space_append.
Qed.

Lemma leading_space_skipped_witness :
  value_step 64 {[ 0%nat ]} ∅ (objs_declared Object_unset) 0 ("  " ++ "12")
  = value_step 64 {[ 0%nat ]} ∅ (objs_declared Object_unset) 0 "12".
Proof.
  apply leading_space_skipped; [reflexivity|discriminate].
Defined.

(** ** The vector of tests *)

Lemma load_file_shape bits init files (path : string)
    (tests tests' : list Transaction) :
  Forall (fun objs => length objs = numObjects) tests ->
  load_file bits init files path tests = inr tests' ->
  Forall (fun objs => length objs = numObjects) tests'.
Proof.
  intros Htests Hload.
  apply load_file_inr in Hload
    as (source & header & content & R & W & new & _ & _ & _ & -> & Hnew).
  apply Forall_app. split; [assumption|].
  apply Forall_lookup. intros n objs Hobjs.
  destruct (Forall2_lookup_r _ _ _ _ _ Hnew Hobjs) as (line & _ & Hparse).
  now apply parse_line_slots in Hparse as (Hlen & _).
Qed.

Lemma files_loop_shape bits init files (paths : list string) :
  forall tests tests',
  Forall (fun objs => length objs = numObjects) tests ->
  files_loop bits init files paths tests = inr tests' ->
  Forall (fun objs => length objs = numObjects) tests'.
Proof.
  induction paths as [|path rest IH]; intros tests tests' Htests.
  - cbn. now intros [= <-].
  - cbn [files_loop].
    destruct (load_file bits init files path tests) as [code|tests1] eqn:Hload;
      [discriminate|].
    cbn. apply IH. eapply load_file_shape; eassumption.
Qed.

(** X11: every transaction of [tests], generated or loaded, has all its
    [numObjects] slots, so that the call of [enqueueTransaction] reads
    [objs[0]] to [objs[15]] inside the array. *)
Theorem tests_have_numObjects_slots bits init files (argv : list string)
    (tests : list Transaction) :
  build_tests bits init files argv = inr tests ->
  Forall (fun objs => length objs = numObjects) tests.
Proof.
  unfold build_tests. destruct (length argv <=? 1)%nat.
  - intros [= <-]. apply Forall_forall. intros objs Hobjs.
    unfold default_tests, generate in Hobjs.
    apply list_elem_of_fmap in Hobjs as (i & -> & _).
    apply test_objs_length.
  - apply files_loop_shape. constructor.
Qed.

Lemma tests_have_numObjects_slots_witness :
  Forall (fun objs => length objs = numObjects)
         [ <[ 2%nat := mkObject true true 7 ]>
             (<[ 0%nat := mkObject true false 5 ]>
                (objs_declared Object_unset));
           <[ 2%nat := mkObject true true 12 ]>
             (objs_declared Object_unset) ].
Proof.
  apply (tests_have_numObjects_slots 64 Object_unset example_files
           ["prog"; "tests.csv"]%string).
  vm_compute. reflexivity.
Defined.



Lemma files_loop_loads bits init files (paths : list string) :
  forall tests,
  (exists tests', files_loop bits init files paths tests = inr tests')
  <-> Forall (fun path => exists new,
                load_file bits init files path [] = inr new) paths.
Proof.
  induction paths as [|path rest IH]; intros tests.
  - cbn. split; [constructor|eauto].
  - cbn [files_loop]. rewrite load_file_tests. split.
    + intros [tests' H].
      destruct (load_file bits init files path []) as [code|new] eqn:Hload;
        [discriminate|].
      constructor; [exists new; exact Hload|]. eapply IH. eauto.
    + intros H. inversion H as [|? ? [new Hnew] Hrest]; subst.
      rewrite Hnew. cbn. now apply IH.
Qed.

(** X13: with file arguments, [main] reaches the loop that enqueues exactly
    when every file loads on its own; one file that does not, wherever it
    stands, keeps the transactions of all the others from being enqueued. *)
Theorem main_enqueues_iff_all_load bits init files (prog path : string)
    (paths : list string) :
  status (main bits init files (prog :: path :: paths)) = None
  <-> Forall (fun p => exists new, load_file bits init files p [] = inr new)
             (path :: paths).
Proof.
  rewrite <- (files_loop_loads bits init files (path :: paths) []).
  unfold main, build_tests. cbn [length Nat.leb tail].
  destruct (files_loop bits init files (path :: paths) []) as [code|tests];
    cbn; split; intros H; eauto; try discriminate.
  destruct H; discriminate.
Qed.

(** ** Identifiers *)

(** X14: the identifiers given to the tests of a second part go on after
    those of the first part. *)
Theorem run_tests_app (tests1 tests2 : list Transaction) :
  run_tests (tests1 ++ tests2)
  = run_tests tests1
    ++ ((fun c : Z * Transaction => (Z.of_nat (length tests1) + c.1, c.2))
          <$> run_tests tests2).
Proof.
  unfold run_tests. rewrite imap_app. f_equal.
  rewrite fmap_imap. apply imap_ext. intros i objs _. cbn.
  f_equal. lia.
Qed.

(** ** Objects of the built-in tests *)

Lemma generate_lookup_test bits init
    (numTests maxScheduledObjects objSetSize i : nat) (objs : Transaction) :
  generate bits init numTests maxScheduledObjects objSetSize !! i = Some objs ->
  objs = test_objs bits init objSetSize i /\ Z.of_nat i < 2 ^ 32.
Proof.
  unfold generate. rewrite list_lookup_fmap. intros H.
  destruct (seq 0 _ !! i) as [i'|] eqn:Hseq; [|discriminate].
  apply lookup_seq in Hseq as [-> Hlt]. injection H as <-.
  split; [reflexivity|].
  pose proof (uint_range (Z.of_nat numTests * Z.of_nat maxScheduledObjects)).
  unfold umul in Hlt. lia.
Qed.

Lemma uint_parity (z : Z) : uint z mod 2 = z mod 2.
Proof. unfold uint. apply Z.mod_mod_divide. now exists (2 ^ 31). Qed.

Lemma to_ObjectAddress_parity bits (z : Z) :
  1 <= bits -> to_ObjectAddress bits z mod 2 = z mod 2.
Proof.
  intros Hbits. unfold to_ObjectAddress. apply Z.mod_mod_divide.
  exists (2 ^ (bits - 1)).
  replace bits with (Z.succ (bits - 1)) at 1 by lia.
  rewrite Z.pow_succ_r by lia. lia.
Qed.

Lemma read_object_even (n x y : Z) : read_object n x y mod 2 = 0.
Proof.
  unfold read_object, uadd, umul. rewrite uint_parity, Z.add_mod by lia.
  rewrite !uint_parity, !Z.mod_mul by lia. reflexivity.
Qed.

Lemma write_object_odd (n x y : Z) : write_object n x y mod 2 = 1.
Proof.
  unfold write_object.
  repeat match goal with |- context [if ?b then _ else _] => destruct b end;
    unfold uadd, umul;
    rewrite uint_parity, Z.add_mod, uint_parity, (Z.add_mod (uint _)) by lia;
    rewrite !uint_parity, !Z.mod_mul by lia; reflexivity.
Qed.

(** X15: the built-in tests read objects with even numbers and write objects
    with odd numbers, wrap-around or not: no object that a test reads is
    written by that test or by any other. *)
Theorem generator_reads_never_written bits init
    (numTests maxScheduledObjects objSetSize i i' j j' : nat)
    (objs objs' : Transaction) :
  1 <= bits ->
  (2 * objSetSize <= numObjects)%nat ->
  generate bits init numTests maxScheduledObjects objSetSize !! i = Some objs ->
  generate bits init numTests maxScheduledObjects objSetSize !! i' = Some objs' ->
  (j < objSetSize)%nat -> (j' < objSetSize)%nat ->
  exists r w,
    objs !! (2 * j)%nat = Some r /\ objs' !! (2 * j' + 1)%nat = Some w
    /\ write r = false /\ write w = true
    /\ object r mod 2 = 0 /\ object w mod 2 = 1
    /\ object r <> object w.
Proof.
  intros Hbits Hsize Hi Hi' Hj Hj'.
  apply generate_lookup_test in Hi as [-> _].
  apply generate_lookup_test in Hi' as [-> _].
  destruct (test_objs_pair bits init objSetSize i j Hsize Hj) as [Hr _].
  destruct (test_objs_pair bits init objSetSize i' j' Hsize Hj') as [_ Hw].
  eexists _, _. split; [exact Hr|]. split; [exact Hw|]. cbn.
  assert (Heven : forall z, to_ObjectAddress bits (read_object
              (Z.of_nat objSetSize) (Z.of_nat i) z) mod 2 = 0).
  { intros z. rewrite to_ObjectAddress_parity by assumption.
    apply read_object_even. }
  assert (Hodd : forall z, to_ObjectAddress bits (write_object
              (Z.of_nat objSetSize) (Z.of_nat i') z) mod 2 = 1).
  { intros z. rewrite to_ObjectAddress_parity by assumption.
    apply write_object_odd. }
  repeat split; auto.
  intros Heq. specialize (Heven (Z.of_nat j)). specialize (Hodd (Z.of_nat j')).
  rewrite Heq in Heven. lia.
Qed.

Lemma generator_reads_never_written_witness :
  exists r w,
    test_objs 64 Object_unset 8 3 !! 4%nat = Some r
    /\ test_objs 64 Object_unset 8 7 !! 5%nat = Some w
    /\ write r = false /\ write w = true
    /\ object r mod 2 = 0 /\ object w mod 2 = 1
    /\ object r <> object w.
Proof.
  apply (generator_reads_never_written 64 Object_unset 4 8 8 3 7 2 2);
    try reflexivity; vm_compute; first [lia | congruence].
Defined.

(** X16: without wrap-around no object is read twice: two different slots,
    of one test or of two, never read the same object. *)
Theorem generator_reads_distinct bits init
    (numTests maxScheduledObjects objSetSize i i' j j' : nat)
    (objs objs' : Transaction) (r r' : Object) :
  32 <= bits ->
  (2 * objSetSize <= numObjects)%nat ->
  2 * Z.of_nat objSetSize * (Z.of_nat numTests * Z.of_nat maxScheduledObjects)
    <= 2 ^ 32 ->
  generate bits init numTests maxScheduledObjects objSetSize !! i = Some objs ->
  generate bits init numTests maxScheduledObjects objSetSize !! i' = Some objs' ->
  (j < objSetSize)%nat -> (j' < objSetSize)%nat ->
  i <> i' \/ j <> j' ->
  objs !! (2 * j)%nat = Some r -> objs' !! (2 * j')%nat = Some r' ->
  object r <> object r'.
Proof.
  intros Hbits Hsize Hfit Hi Hi' Hj Hj' Hne Hr Hr' Heq.
  assert (HN : Z.of_nat numTests * Z.of_nat maxScheduledObjects < 2 ^ 32) by nia.
  assert (Hlt : forall k o,
            generate bits init numTests maxScheduledObjects objSetSize !! k
            = Some o -> (k < numTests * maxScheduledObjects)%nat).
  { intros k o Hk. apply lookup_lt_Some in Hk.
    now rewrite generate_length in Hk. }
  pose proof (Hlt _ _ Hi) as Hbound. pose proof (Hlt _ _ Hi') as Hbound'.
  apply generate_lookup_test in Hi as [-> _].
  apply generate_lookup_test in Hi' as [-> _].
  destruct (test_objs_pair bits init objSetSize i j Hsize Hj) as [H _].
  rewrite H in Hr. injection Hr as <-.
  destruct (test_objs_pair bits init objSetSize i' j' Hsize Hj') as [H' _].
  rewrite H' in Hr'. injection Hr' as <-.
  cbn in Heq.
  rewrite !to_ObjectAddress_small in Heq by auto using read_object_range.
  rewrite !read_object_exact in Heq by nia.
  assert (Z.of_nat i = Z.of_nat i') by nia. lia.
Qed.

Lemma generator_reads_distinct_witness :
  object (mkObject true false 86) <> object (mkObject true false 96).
Proof.
  apply (generator_reads_distinct 64 Object_unset 4 8 8 5 6 3 0
           (test_objs 64 Object_unset 8 5) (test_objs 64 Object_unset 8 6));
    try reflexivity; vm_compute; first [lia | congruence | auto].
Defined.

(** X17: a test whose number is 1 modulo 4 writes, slot by slot, the objects
    that the test before it writes. *)
Theorem generator_neighbour_writes bits init
    (numTests maxScheduledObjects objSetSize i j : nat)
    (objs objs' : Transaction) :
  (2 * objSetSize <= numObjects)%nat ->
  (i mod 4 = 1)%nat ->
  generate bits init numTests maxScheduledObjects objSetSize !! i = Some objs ->
  generate bits init numTests maxScheduledObjects objSetSize !! (i - 1)%nat
  = Some objs' ->
  (j < objSetSize)%nat ->
  objs !! (2 * j + 1)%nat = objs' !! (2 * j + 1)%nat
  /\ exists w, objs !! (2 * j + 1)%nat = Some w /\ write w = true.
Proof.
  intros Hsize Hmod Hi Hi' Hj.
  apply generate_lookup_test in Hi as [-> Hrange].
  apply generate_lookup_test in Hi' as [-> _].
  destruct (test_objs_pair bits init objSetSize i j Hsize Hj) as [_ Hw].
  destruct (test_objs_pair bits init objSetSize (i - 1) j Hsize Hj) as [_ Hw'].
  rewrite Hw, Hw'. split; [|eauto].
  do 3 f_equal. unfold write_object.
  assert (H1 : Z.of_nat i mod 4 = 1).
  { change 4 with (Z.of_nat 4). rewrite <- Nat2Z.inj_mod, Hmod. reflexivity. }
  assert (H0 : Z.of_nat (i - 1) mod 4 = 0) by (rewrite Nat2Z.inj_sub; lia_mod).
  rewrite H1, H0. cbn [Z.eqb].
  assert (Hodd : Z.of_nat i mod 2 = 1) by lia_mod. rewrite Hodd.
  assert (1 <= Z.of_nat i) by lia_mod.
  unfold usub. rewrite uint_small by lia.
  do 4 f_equal. lia.
Qed.

Lemma generator_neighbour_writes_witness :
  test_objs 64 Object_unset 8 5 !! 7%nat = test_objs 64 Object_unset 8 4 !! 7%nat
  /\ exists w, test_objs 64 Object_unset 8 5 !! 7%nat = Some w
               /\ write w = true.
Proof.
  apply (generator_neighbour_writes 64 Object_unset 4 8 8 5 3);
    try reflexivity; vm_compute; lia.
Defined.

(** X18: the tests whose numbers are 3 modulo 4 all write the same objects,
    and so do those whose numbers are 2 modulo 4, which write the objects
    that test 0 writes. *)
Theorem generator_shared_writes bits init
    (numTests maxScheduledObjects objSetSize i i' j : nat)
    (objs objs' : Transaction) :
  (2 * objSetSize <= numObjects)%nat ->
  (i mod 4 = 3 /\ i' mod 4 = 3)%nat \/ (i mod 4 = 2 /\ i' mod 4 = 2)%nat
  \/ (i mod 4 = 2 /\ i' = 0)%nat ->
  generate bits init numTests maxScheduledObjects objSetSize !! i = Some objs ->
  generate bits init numTests maxScheduledObjects objSetSize !! i' = Some objs' ->
  (j < objSetSize)%nat ->
  objs !! (2 * j + 1)%nat = objs' !! (2 * j + 1)%nat
  /\ exists w, objs !! (2 * j + 1)%nat = Some w /\ write w = true.
Proof.
  intros Hsize Hmod Hi Hi' Hj.
  apply generate_lookup_test in Hi as [-> _].
  apply generate_lookup_test in Hi' as [-> _].
  destruct (test_objs_pair bits init objSetSize i j Hsize Hj) as [_ Hw].
  destruct (test_objs_pair bits init objSetSize i' j Hsize Hj) as [_ Hw'].
  rewrite Hw, Hw'. split; [|eauto].
  do 3 f_equal. unfold write_object.
  assert (Hz : forall k m : nat, (k mod 4 = m)%nat ->
                                 Z.of_nat k mod 4 = Z.of_nat m).
  { intros k m <-. change 4 with (Z.of_nat 4). now rewrite <- Nat2Z.inj_mod. }
  destruct Hmod as [[H H']|[[H H']|[H ->]]];
    apply Hz in H; try apply Hz in H'; rewrite H, ?H'; cbn [Z.eqb Z.of_nat].
  - reflexivity.
  - assert (E : Z.of_nat i mod 2 = 0) by lia_mod.
    assert (E' : Z.of_nat i' mod 2 = 0) by lia_mod.
    now rewrite E, E'.
  - assert (E : Z.of_nat i mod 2 = 0) by lia_mod.
    rewrite E. reflexivity.
Qed.

Lemma generator_shared_writes_witness :
  test_objs 64 Object_unset 8 3 !! 7%nat = test_objs 64 Object_unset 8 31 !! 7%nat
  /\ exists w, test_objs 64 Object_unset 8 3 !! 7%nat = Some w
               /\ write w = true.
Proof.
  apply (generator_shared_writes 64 Object_unset 4 8 8 3 31 3);
    try reflexivity; vm_compute; first [lia | auto].
Defined.

(** ** Messages of the indication handler *)

Lemma append_inv_head (s a b : string) :
  (s ++ a)%string = (s ++ b)%string -> a = b.
Proof.
  induction s as [|c s IH]; [now rewrite !append_empty|].
  rewrite !append_String. intros [= H]. now apply IH.
Qed.

Lemma zeros_has_char (c : ascii) (n : nat) (s : string) :
  Ascii.eqb "0" c = false -> has_char c (zeros n s) = has_char c s.
Proof.
  intros Hc. induction n as [|n IH]; [reflexivity|].
  cbn [zeros has_char]. now rewrite Hc, IH.
Qed.

Fixpoint of_pos_no_space (p : positive) (rest : string) {struct p} :
  has_char " " (HexString.Raw.of_pos p rest) = has_char " " rest.
Proof.
  do 4 try destruct p as [p|p|]; try reflexivity;
    cbn [HexString.Raw.of_pos]; rewrite of_pos_no_space; reflexivity.
Qed.

Lemma identifier_no_space (tid : N) :
  has_char " " (zero_pad 2 (format_lx tid)) = false.
Proof.
  unfold zero_pad. rewrite zeros_has_char by reflexivity.
  destruct tid as [|p]; [reflexivity|apply of_pos_no_space].
Qed.

Lemma string_of_uint_no_newline (d : Decimal.uint) :
  has_char newline (DecimalString.NilEmpty.string_of_uint d) = false.
Proof. induction d; cbn; auto. Qed.

Lemma format_lu_no_newline (n : N) : has_char newline (format_lu n) = false.
Proof.
  unfold format_lu, DecimalString.NilZero.string_of_uint.
  destruct (N.to_uint n); try apply string_of_uint_no_newline. reflexivity.
Qed.

Lemma to_N_zeros (n : nat) (s : string) :
  HexString.Raw.to_N (zeros n s) 0 = HexString.Raw.to_N s 0.
Proof. induction n as [|n IH]; [reflexivity|exact IH]. Qed.

Lemma identifier_read_back (tid : N) :
  HexString.Raw.to_N (zero_pad 2 (format_lx tid)) 0 = tid.
Proof.
  unfold zero_pad. rewrite to_N_zeros.
  destruct tid as [|p]; [reflexivity|].
  cbn [format_lx]. now rewrite HexString.Raw.to_N_of_pos.
Qed.

(** X19: the identifier of a message has two hexadecimal digits or more, and
    read as a hexadecimal number, zeros in front included, it is the
    identifier that was given. *)
Theorem identifier_field (tid : N) :
  (2 <= String.length (zero_pad 2 (format_lx tid)))%nat
  /\ HexString.Raw.to_N (zero_pad 2 (format_lx tid)) 0 = tid.
Proof.
  split.
  - unfold zero_pad.
    assert (Hzeros : forall n s, String.length (zeros n s)
                                 = (n + String.length s)%nat).
    { intros n s. induction n as [|n IH]; [reflexivity|]. cbn. now rewrite IH. }
    rewrite Hzeros. lia.
  - apply identifier_read_back.
Qed.

Lemma format_lu_inj (n n' : N) : format_lu n = format_lu n' -> n = n'.
Proof.
  unfold format_lu. intros H.
  assert (Hnonnil : forall m, N.to_uint m <> Decimal.Nil).
  { intros [|p]; [discriminate|apply DecimalPos.Unsigned.to_uint_nonnil]. }
  apply DecimalN.Unsigned.to_uint_inj.
  pose proof (DecimalString.NilZero.usu _ (Hnonnil n)) as Hn.
  pose proof (DecimalString.NilZero.usu _ (Hnonnil n')) as Hn'.
  rewrite H in Hn. congruence.
Qed.

Lemma message_fields (kind H H' D D' : string) :
  has_char " " H = false -> has_char " " H' = false ->
  has_char newline D = false -> has_char newline D' = false ->
  (kind ++ H ++ " at " ++ D ++ String newline EmptyString)%string
  = (kind ++ H' ++ " at " ++ D' ++ String newline EmptyString)%string ->
  H = H' /\ D = D'.
Proof.
  intros HH HH' HD HD' Heq. apply append_inv_head in Heq.
  rewrite !(append_String " " "at ") in Heq.
  apply (f_equal (getline " ")) in Heq.
  rewrite !getline_token in Heq by assumption.
  injection Heq as -> Heq. split; [reflexivity|].
  apply append_inv_head in Heq.
  apply (f_equal (getline newline)) in Heq.
  rewrite !getline_token in Heq by assumption.
  now injection Heq.
Qed.

(** X20: a message tells which transaction and which time it is about: two
    messages of [transactionStarted], or two of [transactionFinished], are
    the same text only for the same identifier and the same time, and a
    message of one is never a message of the other. *)
Theorem messages_distinct (tid timestamp tid' timestamp' : N) :
  (transactionStarted tid timestamp = transactionStarted tid' timestamp' ->
   tid = tid' /\ timestamp = timestamp')
  /\ (transactionFinished tid timestamp
      = transactionFinished tid' timestamp' ->
      tid = tid' /\ timestamp = timestamp')
  /\ transactionStarted tid timestamp
     <> transactionFinished tid' timestamp'.
Proof.
  assert (Hfields : forall kind,
    (kind ++ zero_pad 2 (format_lx tid) ++ " at "
       ++ format_lu timestamp ++ String newline EmptyString)%string
    = (kind ++ zero_pad 2 (format_lx tid') ++ " at "
         ++ format_lu timestamp' ++ String newline EmptyString)%string ->
    tid = tid' /\ timestamp = timestamp').
  { intros kind Heq.
    apply message_fields in Heq
      as [Hid Htime]; auto using identifier_no_space, format_lu_no_newline.
    split; [|now apply format_lu_inj].
    rewrite <- (identifier_read_back tid), <- (identifier_read_back tid').
    now rewrite Hid. }
  split; [apply Hfields|]. split; [apply Hfields|].
  unfold transactionStarted, transactionFinished.
  rewrite !append_String. discriminate.
Qed.

(** ** A file without content *)

Lemma getline_last_token (delim : ascii) (t : string) :
  has_char delim t = false -> t <> EmptyString ->
  getline delim t = Some (t, EmptyString).
Proof.
  induction t as [|c t IH]; [contradiction|].
  cbn [getline has_char]. intros H _.
  apply orb_false_iff in H as [Hc Ht]. rewrite Hc.
  destruct t as [|c' t]; [reflexivity|].
  now rewrite IH by (assumption || discriminate).
Qed.

(** X21: a file that holds nothing but a header line, ended by a newline or
    not, is no error and adds no test: [tests] stays as it was. *)
Theorem header_only_file bits init files (path header : string)
    (tests : list Transaction) :
  has_char newline header = false ->
  (files path = Some (header ++ String newline EmptyString)%string
   \/ (header <> EmptyString /\ files path = Some header)) ->
  load_file bits init files path tests = inr tests.
Proof.
  intros Hline Hfile. unfold load_file.
  destruct Hfile as [->|[Hne ->]].
  - rewrite getline_token by assumption.
    now destruct (header_loop 0 (getlines comma header) ∅ ∅).
  - rewrite getline_last_token by assumption.
    now destruct (header_loop 0 (getlines comma header) ∅ ∅).
Qed.

Lemma header_only_file_witness :
  load_file 64 Object_unset header_files "header.csv"
            [objs_declared Object_unset]
  = inr [objs_declared Object_unset].
Proof.
  apply (header_only_file 64 Object_unset header_files "header.csv"
           "Read object 1,Written object 1").
  - reflexivity.
  - right. split; [discriminate|reflexivity].
Defined.
